(** * Pagination engine of [facebook/graphy.py]

    A shallow embedding of the cursor-following generator [paginate], its two
    cursor extractors, the query-string parser, the geometric ramp-up policy
    and the response decoder, followed by the properties established about
    them. *)

From Stdlib Require Import ZArith Ascii Lia.
From stdpp Require Import gmap strings list fin_maps.

Set Warnings "-register-all".
Local Open Scope Z_scope.

(** ** Python values *)

(** Decoded JSON bodies, parameter values and credentials.  Numbers are the
    integers; non-integral JSON numbers are outside the model.  A JSON object
    is a finite map: key order plays no role in any function modelled here. *)
Inductive value :=
| VNone
| VBool (b : bool)
| VInt (n : Z)
| VStr (s : string)
| VList (l : list value)
| VDict (d : gmap string value).

(** The exceptions the modelled code can raise. *)
Inductive exn := IndexError | ValueError | AttributeError | KeyError | TypeError.

Inductive result (A : Type) :=
| Ok (a : A)
| Raise (e : exn).
Arguments Ok {A} a.
Arguments Raise {A} e.

(** The error monad; [x ← r; k] is stdpp's bind notation. *)
Global Instance result_ret : MRet result := fun A a => Ok a.
Global Instance result_bind : MBind result := fun A B k r =>
  match r with
  | Ok a => k a
  | Raise e => Raise e
  end.

(** Truth value testing, as used by [if data and cursor and ...]. *)
Definition truthy (v : value) : bool :=
  match v with
  | VNone => false
  | VBool b => b
  | VInt n => negb (n =? 0)
  | VStr s => match s with EmptyString => false | String _ _ => true end
  | VList l => match l with [] => false | _ :: _ => true end
  | VDict d => negb (bool_decide (d = ∅))
  end.

(** Python's [==] on these values: booleans compare as the integers 0 and 1,
    lists element-wise, mappings key by key. *)
Definition bool_to_Z (b : bool) : Z := if b then 1 else 0.

Fixpoint py_eq (v w : value) : bool :=
  match v, w with
  | VNone, VNone => true
  | VBool a, VBool b => bool_to_Z a =? bool_to_Z b
  | VBool a, VInt n => bool_to_Z a =? n
  | VInt n, VBool b => n =? bool_to_Z b
  | VInt n, VInt k => n =? k
  | VStr s, VStr t => bool_decide (s = t)
  | VList l, VList r =>
      (fix go (l r : list value) : bool :=
         match l, r with
         | [], [] => true
         | x :: l', y :: r' => py_eq x y && go l' r'
         | _, _ => false
         end) l r
  | VDict d, VDict e =>
      bool_decide (size d = size e) &&
      map_fold (fun k x acc =>
                  acc && match e !! k with
                         | Some y => py_eq x y
                         | None => false
                         end) true d
  | _, _ => false
  end.

Definition py_ne (v w : value) : bool := negb (py_eq v w).

(** [v.get(k, dflt)]: only mappings have a [get] attribute. *)
Definition py_get (v : value) (k : string) (dflt : value) : result value :=
  match v with
  | VDict d => Ok (default dflt (d !! k))
  | _ => Raise AttributeError
  end.

(** ** Strings *)

Definition chr_question : ascii := "?"%char.
Definition chr_amp : ascii := "&"%char.
Definition chr_equals : ascii := "="%char.

Fixpoint str_has (c : ascii) (s : string) : bool :=
  match s with
  | EmptyString => false
  | String a s' => bool_decide (a = c) || str_has c s'
  end.

(** [s.split(sep)] and [s.split(sep, n)] for a one-character separator.
    [maxsplit = None] is the unlimited split; the result is never empty. *)
Definition may_split (maxsplit : option nat) : bool :=
  match maxsplit with
  | Some O => false
  | _ => true
  end.

Definition spend (maxsplit : option nat) : option nat :=
  match maxsplit with
  | Some n => Some (pred n)
  | None => None
  end.

Fixpoint str_split (sep : ascii) (maxsplit : option nat) (s : string) : list string :=
  match s with
  | EmptyString => [EmptyString]
  | String a s' =>
      if bool_decide (a = sep) && may_split maxsplit
      then EmptyString :: str_split sep (spend maxsplit) s'
      else match str_split sep maxsplit s' with
           | piece :: rest => String a piece :: rest
           | [] => [String a EmptyString]
           end
  end.

Fixpoint str_join (sep : ascii) (pieces : list string) : string :=
  match pieces with
  | [] => EmptyString
  | [p] => p
  | p :: rest => p +:+ String sep (str_join sep rest)
  end.

(** ** Cursor extractors *)

(** [dict(seq)] over a sequence of lists of strings: every element must have
    exactly two items, later keys overwrite earlier ones. *)
Fixpoint dict_of_items (acc : gmap string string) (items : list (list string))
  : result (gmap string string) :=
  match items with
  | [] => Ok acc
  | [k; v] :: rest => dict_of_items (<[k := v]> acc) rest
  | _ :: _ => Raise ValueError
  end.

Definition extract_query (s : string) : result (gmap string string) :=
  let parts := str_split chr_question (Some 1%nat) s in
  match parts with
  | [_; q] =>
      dict_of_items ∅ (map (str_split chr_equals (Some 1%nat))
                           (str_split chr_amp None q))
  | _ => Ok ∅
  end.

(** [extract_query(v)] on an arbitrary value: only strings have [split]. *)
Definition extract_query_value (v : value) : result (gmap string string) :=
  match v with
  | VStr s => extract_query s
  | _ => Raise AttributeError
  end.

Definition str_or_none (o : option string) : value :=
  match o with
  | Some s => VStr s
  | None => VNone
  end.

Definition extract_after (c : value) : result value :=
  paging ← py_get c "paging" (VDict ∅);
  cursors ← py_get paging "cursors" (VDict ∅);
  py_get cursors "after" VNone.

Definition extract_until (c : value) : result value :=
  paging ← py_get c "paging" (VDict ∅);
  next ← py_get paging "next" (VStr EmptyString);
  q ← extract_query_value next;
  Ok (str_or_none (q !! "until")).

(** ** Ramp-up policy *)

Definition geometric_ramp_up (multiplier ceiling : Z) : Z -> Z :=
  fun x => Z.min ceiling (x * multiplier).

(** [geometric_ramp_up] applied to a parameter value.  The driver always
    stores an integer limit; for any other operand the arithmetic is not
    modelled and is represented by [TypeError]. *)
Definition ramp_value (f : Z -> Z) (v : value) : result value :=
  match v with
  | VInt n => Ok (VInt (f n))
  | _ => Raise TypeError
  end.

(** The default policy [lambda x: x]. *)
Definition ramp_identity (v : value) : result value := Ok v.

(** ** Responses *)

(** What the engine reads of a [requests] response: the status code, the raw
    text and the outcome of [r.json()]. *)
Record response := {
  status_code : Z;
  text : string;
  json : result value
}.

Definition parse_response (r : response) : value :=
  match json r with
  | Ok v => v
  | Raise _ => VDict {[ "error" := VStr (text r) ]}
  end.

(** ** The store *)

(** Parameter mappings are mutable objects: they live in a heap and are
    referred to by location.  [sent] records the GET requests issued so far,
    each with the query parameters as they were when it was sent. *)
Definition loc := nat.

Record machine := {
  heap : gmap loc (gmap string value);
  sent : list (string * gmap string value)
}.

(** A location holding nothing reads as the empty mapping; the engine only
    reads locations that have been written. *)
Definition read (m : machine) (l : loc) : gmap string value := heap m !!! l.

Definition write (m : machine) (l : loc) (d : gmap string value) : machine :=
  {| heap := <[l := d]> (heap m); sent := sent m |}.

(** [dict(parameters)]: a new object holding the same items. *)
Definition copy_dict (m : machine) (l : loc) : loc * machine :=
  let l' := fresh (dom (heap m)) in
  (l', write m l' (read m l)).

(** The yielded page: [dict(content=, status=, endpoint=, parameters=params)].
    The last item is the reference [params], not its contents. *)
Record envelope := {
  e_content : value;
  e_status : Z;
  e_endpoint : string;
  e_parameters : loc
}.

(** ** The generator *)

(** A generator object is either not started (its body runs only at the
    first [next]), suspended at the [yield] with its local variables, or
    finished. *)
Inductive gen :=
| Unstarted (parameters : loc) (tokens : list value)
| Suspended (params : loc) (queue : list value) (content : value)
| Finished.

Inductive outcome :=
| Yielded (e : envelope) (g : gen) (m : machine)
| StopIteration (m : machine)
| Raised (x : exn) (m : machine).

(** Result of the code between the [yield] and the next loop iteration. *)
Inductive decision :=
| Continue (queue : list value) (m : machine)
| Break (m : machine)
| Throw (x : exn) (m : machine).

Section Engine.
(** [requests.get] as the engine sees it: the reply to a request, given the
    requests sent before it.  Transport failures are outside the model:
    every request gets a reply. *)
Variable server :
  list (string * gmap string value) -> string -> gmap string value -> response.
Variable endpoint : string.
Variable cursor_key : string.
Variable cursor_extractor : value -> result value.
Variable ramp_up : value -> result value.

(** Lines 103-107: pop a credential, send the request, yield the page. *)
Definition request (params : loc) (queue : list value) (m : machine) : outcome :=
  match queue with
  | [] => Raised IndexError m
  | tok :: queue' =>
      let m1 := write m params (<["access_token" := tok]> (read m params)) in
      let r := server (sent m1) endpoint (read m1 params) in
      let m2 := {| heap := heap m1;
                   sent := sent m1 ++ [(endpoint, read m1 params)] |} in
      let content := parse_response r in
      Yielded {| e_content := content; e_status := status_code r;
                 e_endpoint := endpoint; e_parameters := params |}
              (Suspended params queue' content) m2
  end.

(** Lines 109-117: extract the cursor, test for continuation, update the
    queue and the parameters. *)
Definition continuation_test (data cursor stored : value) : bool :=
  truthy data && truthy cursor && py_ne cursor stored.

Definition after_yield (params : loc) (queue : list value) (content : value)
           (m : machine) : decision :=
  match cursor_extractor content with
  | Raise x => Throw x m
  | Ok cursor =>
      match py_get content "data" (VList []) with
      | Raise x => Throw x m
      | Ok data =>
          if continuation_test data cursor
               (default VNone (read m params !! cursor_key))
          then
            match read m params !! "access_token" with
            | None => Throw KeyError m
            | Some tok =>
                let m1 := write m params (<[cursor_key := cursor]> (read m params)) in
                match read m1 params !! "limit" with
                | None => Continue (queue ++ [tok]) m1
                | Some lim =>
                    match ramp_up lim with
                    | Raise x => Throw x m1
                    | Ok lim' =>
                        Continue (queue ++ [tok])
                                 (write m1 params (<["limit" := lim']> (read m1 params)))
                    end
                end
            end
          else Break m
      end
  end.

(** One [next()] on the generator. *)
Definition gen_next (g : gen) (m : machine) : outcome :=
  match g with
  | Unstarted parameters tokens =>
      let '(params, m1) := copy_dict m parameters in
      request params tokens m1
  | Suspended params queue content =>
      match after_yield params queue content m with
      | Continue queue' m1 => request params queue' m1
      | Break m1 => StopIteration m1
      | Throw x m1 => Raised x m1
      end
  | Finished => StopIteration m
  end.

(** The consumer: [n] calls of [next()], collecting the pages that were
    yielded.  Once the generator has ended (by exhaustion or by an
    exception) further calls yield nothing. *)
Fixpoint drive (n : nat) (g : gen) (m : machine) : list envelope * gen * machine :=
  match n with
  | O => ([], g, m)
  | S n' =>
      let '(es, g1, m1) := drive n' g m in
      match gen_next g1 m1 with
      | Yielded e g2 m2 => (es ++ [e], g2, m2)
      | StopIteration m2 => (es, Finished, m2)
      | Raised _ m2 => (es, Finished, m2)
      end
  end.
End Engine.

(** Calling [paginate] only creates the generator object. *)
Definition paginate (parameters : loc) (tokens : list value) : gen :=
  Unstarted parameters tokens.

(** [next()] on the generators made by [paginate_cursors] and
    [paginate_dates], which fix the cursor key and the extractor. *)
Definition next_cursors server endpoint ramp_up :=
  gen_next server endpoint "after" extract_after ramp_up.

Definition next_dates server endpoint ramp_up :=
  gen_next server endpoint "until" extract_until ramp_up.

(** ** Auxiliary notions used in the statements *)

(** One step of the mapping construction: [acc[k] = v]. *)
Definition store_pair (acc : gmap string string) (kv : string * string) :=
  <[kv.1 := kv.2]> acc.

(** The text [k=v] of a pair and the two items it splits into. *)
Definition pair_text (kv : string * string) : string :=
  kv.1 +:+ String chr_equals kv.2.

Definition pair_items (kv : string * string) : list string := [kv.1; kv.2].

(** A well-formed pair: no [=] or [&] in the key, no [&] in the value. *)
Definition plain_pair (kv : string * string) : Prop :=
  str_has chr_equals kv.1 = false /\
  str_has chr_amp kv.1 = false /\
  str_has chr_amp kv.2 = false.

(** The body [{paging: {next: url}}], and a URL whose query string is made
    of the given pairs. *)
Definition next_page (url : string) : value :=
  VDict {[ "paging" := VDict {[ "next" := VStr url ]} ]}.

Definition query_url (pre : string) (pairs : list (string * string)) : string :=
  pre +:+ String chr_question (str_join chr_amp (map pair_text pairs)).

(** The parameter mapping after line 113, [params[cursor_key] = cursor]. *)
Definition cursor_stored (cursor_key : string) (cursor : value)
    (d : gmap string value) : gmap string value :=
  <[cursor_key := cursor]> d.

(** The continuation condition in the words of the specification: the data
    list is non-empty, the extractor returned a cursor rather than none, and
    the cursor differs from the stored one. *)
Definition stated_test (data cursor stored : value) : bool :=
  match data with VList (_ :: _) => true | _ => false end
  && match cursor with VNone => false | _ => true end
  && py_ne cursor stored.

(** ** The invariant of a run *)

Section Invariant.
Variable server :
  list (string * gmap string value) -> string -> gmap string value -> response.
Variable endpoint : string.
Variable cursor_key : string.
Variable cursor_extractor : value -> result value.

(** [e] is the page made from the reply to the request with parameters [d]
    sent after [history]. *)
Definition page_of (history : list (string * gmap string value))
    (d : gmap string value) (e : envelope) : Prop :=
  e_content e = parse_response (server history endpoint d)
  /\ e_status e = status_code (server history endpoint d)
  /\ e_endpoint e = endpoint.

(** Page [k] answers request [k], which carried credential [k mod n]. *)
Definition logged (tokens : list value)
    (before : list (string * gmap string value)) (es : list envelope)
    (now : list (string * gmap string value)) : Prop :=
  exists reqs, now = before ++ reqs /\ length reqs = length es /\
    forall k e, es !! k = Some e ->
      exists d, reqs !! k = Some (endpoint, d)
        /\ d !! "access_token" = tokens !! (k mod length tokens)%nat
        /\ page_of (before ++ take k reqs) d e.

Definition suspended_ok (tokens : list value) (p0 : loc)
    (es : list envelope) (g : gen) (m : machine) : Prop :=
  match g with
  | Unstarted _ _ => False
  | Finished => True
  | Suspended params queue content =>
      params = p0 /\ exists tok e,
        read m p0 !! "access_token" = Some tok
        /\ tok :: queue = rotate (pred (length es)) tokens
        /\ last es = Some e /\ e_content e = content
        /\ last (sent m) = Some (endpoint, read m p0)
  end.

Record run_inv (tokens : list value) (m0 : machine) (p0 : loc)
    (es : list envelope) (g : gen) (m : machine) : Prop := {
  inv_frame : forall l, l <> p0 -> heap m !! l = heap m0 !! l;
  inv_refs : Forall (fun e => e_parameters e = p0) es;
  inv_log : logged tokens (sent m0) es (sent m);
  inv_state : suspended_ok tokens p0 es g m
}.

(** The continuation test of line 111 on the page just yielded. *)
Definition passes (params : loc) (content : value) (m : machine) : Prop :=
  exists cursor data,
    cursor_extractor content = Ok cursor
    /\ py_get content "data" (VList []) = Ok data
    /\ truthy data = true
    /\ truthy cursor = true
    /\ py_ne cursor (default VNone (read m params !! cursor_key)) = true.
End Invariant.

(** ** Fixtures *)

(** A page with one data item and the given [after] cursor, and a page with
    no data. *)
Definition page (cursor : string) : value :=
  VDict {[ "data" := VList [VDict ∅];
           "paging" := VDict {[ "cursors" := VDict {[ "after" := VStr cursor ]} ]} ]}.

Definition empty_page : value := VDict {[ "data" := VList [] ]}.

Definition json_reply (v : value) : response :=
  {| status_code := 200; text := "(json)"; json := Ok v |}.

Definition text_reply (code : Z) (body : string) : response :=
  {| status_code := code; text := body; json := Raise ValueError |}.

(** Three pages with cursors C1, C2, C3, then a plain-text rate-limit reply. *)
Definition rate_limited_server
    (history : list (string * gmap string value)) (url : string)
    (params : gmap string value) : response :=
  match length history with
  | 0%nat => json_reply (page "C1")
  | 1%nat => json_reply (page "C2")
  | 2%nat => json_reply (page "C3")
  | _ => text_reply 429 "rate limit exceeded"
  end.

(** The two-page fixture: a page with cursor C1, then an empty page. *)
Definition two_page_server
    (history : list (string * gmap string value)) (url : string)
    (params : gmap string value) : response :=
  match length history with
  | 0%nat => json_reply (page "C1")
  | _ => json_reply empty_page
  end.

(** A server whose pages carry data and an empty [after] cursor. *)
Definition empty_cursor_server
    (history : list (string * gmap string value)) (url : string)
    (params : gmap string value) : response :=
  json_reply (page EmptyString).

Definition likes_url : string := "https://graph.facebook.com/v2.2/40796308305/likes".

Definition likes_parameters : gmap string value :=
  {[ "summary" := VInt 1; "limit" := VInt 25 ]}.

(** The caller's parameter mapping lives at location 0. *)
Definition caller_machine : machine :=
  {| heap := {[ 0%nat := likes_parameters ]}; sent := [] |}.

Definition token_A : value := VStr "A".
Definition token_B : value := VStr "B".

Definition default_ramp : value -> result value :=
  ramp_value (geometric_ramp_up 2 3000).

Definition likes_gen : gen := paginate 0%nat [token_A; token_B].

Definition likes_next (server : list (string * gmap string value) -> string ->
                                gmap string value -> response) :=
  next_cursors server likes_url default_ramp.

Definition likes_run (server : list (string * gmap string value) -> string ->
                               gmap string value -> response) (n : nat) :=
  drive server likes_url "after" extract_after default_ramp n likes_gen caller_machine.

(** ** Consecutive requests of a run *)

Definition is_mapping (v : value) : bool :=
  match v with
  | VDict _ => true
  | _ => false
  end.

Section Links.
Variable endpoint : string.
Variable cursor_key : string.
Variable cursor_extractor : value -> result value.
Variable ramp_up : value -> result value.

(** The parameters [d'] of a request, as they follow from the parameters [d]
    of the request before it and the page [e] that request produced
    (lines 109-115, then line 103). *)
Definition linked (e : envelope) (d d' : gmap string value) : Prop :=
  exists cursor data tok d1,
    cursor_extractor (e_content e) = Ok cursor
    /\ py_get (e_content e) "data" (VList []) = Ok data
    /\ continuation_test data cursor (default VNone (d !! cursor_key)) = true
    /\ d' = <["access_token" := tok]> d1
    /\ match cursor_stored cursor_key cursor d !! "limit" with
       | None => d1 = cursor_stored cursor_key cursor d
       | Some lim =>
           exists lim', ramp_up lim = Ok lim'
             /\ d1 = <["limit" := lim']> (cursor_stored cursor_key cursor d)
       end.

(** The first request carries the caller's parameters plus a credential;
    each later one is linked to its predecessor. *)
Definition chained (orig : gmap string value) (es : list envelope)
    (reqs : list (string * gmap string value)) : Prop :=
  (forall u d, reqs !! 0%nat = Some (u, d) ->
     exists tok, d = <["access_token" := tok]> orig)
  /\ forall j e u d u' d',
       es !! j = Some e -> reqs !! j = Some (u, d) ->
       reqs !! S j = Some (u', d') -> linked e d d'.

(** What a run has sent and yielded, with the state the generator is in. *)
Definition threaded (parameters : loc) (tokens : list value) (m0 : machine)
    (es : list envelope) (g : gen) (m : machine)
    (reqs : list (string * gmap string value)) : Prop :=
  sent m = sent m0 ++ reqs
  /\ length reqs = length es
  /\ Forall (fun r => r.1 = endpoint) reqs
  /\ Forall (fun e => e_endpoint e = endpoint) es
  /\ chained (read m0 parameters) es reqs
  /\ match g with
     | Unstarted p t => p = parameters /\ t = tokens /\ m = m0 /\ es = []
     | Suspended params queue content =>
         last reqs = Some (endpoint, read m params)
         /\ exists e, last es = Some e /\ e_content e = content
     | Finished => True
     end.
End Links.

(** A decoded body the extractors cannot walk: not a mapping, or a mapping
    whose [paging] item is not one. *)
Definition ill_shaped (v : value) : Prop :=
  is_mapping v = false
  \/ exists d pg, v = VDict d /\ d !! "paging" = Some pg /\ is_mapping pg = false.

(** A server that answers every request with the same page and cursor. *)
Definition stuck_server
    (history : list (string * gmap string value)) (url : string)
    (params : gmap string value) : response :=
  json_reply (page "C1").

(** ** Command-line inputs *)

(** [s.lstrip()], [s.rstrip()] and [s.strip()], for the characters [drop]
    selects: the white space of [str.strip()], or the slash of
    [rstrip('/')]. *)
Fixpoint str_lstrip (drop : ascii -> bool) (s : string) : string :=
  match s with
  | EmptyString => EmptyString
  | String a s' => if drop a then str_lstrip drop s' else s
  end.

Fixpoint str_rstrip (drop : ascii -> bool) (s : string) : string :=
  match s with
  | EmptyString => EmptyString
  | String a s' =>
      match str_rstrip drop s' with
      | EmptyString => if drop a then EmptyString else String a EmptyString
      | String b rest => String a (String b rest)
      end
  end.

Definition str_strip (drop : ascii -> bool) (s : string) : string :=
  str_rstrip drop (str_lstrip drop s).

(** [one_of]: the entries of the lists that are not [None], in order, each
    stripped. *)
Definition one_of (is_space : ascii -> bool)
    (lists : list (option (list string))) : list string :=
  concat (map (fun l => match l with
                        | Some entries => map (str_strip is_space) entries
                        | None => []
                        end) lists).

Definition is_slash (a : ascii) : bool := bool_decide (a = "/"%char).

(** Line 70: ['%s/%s/%s' % (opts.url.rstrip('/'), obj, opts.endpoint)]. *)
Definition object_url (base obj endpoint_name : string) : string :=
  str_rstrip is_slash base +:+ String "/"%char (obj +:+ String "/"%char endpoint_name).

(** All characters of a string satisfy [f]. *)
Fixpoint str_all (f : ascii -> bool) (s : string) : bool :=
  match s with
  | EmptyString => true
  | String a s' => f a && str_all f s'
  end.

(** The last character of a string. *)
Fixpoint str_last (s : string) : option ascii :=
  match s with
  | EmptyString => None
  | String a EmptyString => Some a
  | String _ s' => str_last s'
  end.

Definition str_first (s : string) : option ascii :=
  match s with
  | EmptyString => None
  | String a _ => Some a
  end.

(** ** The driver *)

(** What [serialize(entry)] reads: the envelope with its [parameters] item
    followed into the store. *)
Record snapshot := {
  s_content : value;
  s_status : Z;
  s_endpoint : string;
  s_parameters : gmap string value
}.

Definition view (m : machine) (e : envelope) : snapshot :=
  {| s_content := e_content e; s_status := e_status e;
     s_endpoint := e_endpoint e; s_parameters := read m (e_parameters e) |}.

(** [len(v)]. *)
Definition py_len (v : value) : result nat :=
  match v with
  | VList l => Ok (length l)
  | VDict d => Ok (size d)
  | VStr s => Ok (String.length s)
  | _ => Raise TypeError
  end.

(** How the driver stops: the failed assertion of [write_file], or an
    exception raised further down. *)
Inductive failure :=
| AssertionError
| Propagated (x : exn).

Inductive status :=
| Completed
| Failed (f : failure)
| OutOfFuel.

(** The progress messages: the running count of an object, and the newline
    that ends it. *)
Inductive progress_event :=
| Report (obj : string) (count : nat)
| EndOfObject.

(** The store, the regular files by path, and what went to standard error.
    Directories are not part of the model. *)
Record world := {
  w_machine : machine;
  w_files : gmap string string;
  w_stderr : list progress_event
}.

Definition with_machine (w : world) (m : machine) : world :=
  {| w_machine := m; w_files := w_files w; w_stderr := w_stderr w |}.

Definition with_files (w : world) (files : gmap string string) : world :=
  {| w_machine := w_machine w; w_files := files; w_stderr := w_stderr w |}.

(** [write_file]: [None] is the failed assertion. *)
Definition write_file (filename data : string) (overwrite : bool)
    (files : gmap string string) : option (gmap string string) :=
  if overwrite || negb (bool_decide (is_Some (files !! filename)))
  then Some (<[filename := data]> files)
  else None.

(** A paginator: the cursor key and extractor that [paginate_cursors] and
    [paginate_dates] pass to [paginate]. *)
Record paginator := {
  p_key : string;
  p_extractor : value -> result value
}.

Definition paginate_cursors : paginator :=
  {| p_key := "after"; p_extractor := extract_after |}.

Definition paginate_dates : paginator :=
  {| p_key := "until"; p_extractor := extract_until |}.

Definition default_endpoints : gmap string paginator :=
  {[ "feed" := paginate_dates; "posts" := paginate_dates;
     "likes" := paginate_cursors; "comments" := paginate_cursors ]}.

(** [params.update(pairs)] with the string values of the command line. *)
Definition update_pairs (d : gmap string value)
    (pairs : list (string * string)) : gmap string value :=
  foldl (fun acc kv => <[kv.1 := VStr kv.2]> acc) d pairs.

(** Lines 60-62: the query parameters are merged into the endpoint's
    mapping, in place, then the limit is set. *)
Definition prepare_parameters (lp : loc)
    (query_parameters : option (list (string * string))) (limit : Z)
    (m : machine) : machine :=
  let m1 := match query_parameters with
            | Some (kv :: rest) =>
                write m lp (update_pairs (read m lp) (kv :: rest))
            | _ => m
            end in
  write m1 lp (<["limit" := VInt limit]> (read m1 lp)).

Section Driver.
Variable server :
  list (string * gmap string value) -> string -> gmap string value -> response.
(** [os.path.join(opts.destination, opts.format % fmt)] for an object and a
    page index, and [serialize], the function [choose_serializer] returned. *)
Variable file_name : string -> nat -> result string.
Variable serialize : snapshot -> result string.
Variable overwrite : bool.
Variable verbose : bool.
Variable base_url : string.
Variable endpoint_name : string.
Variable pager : paginator.
Variable ramp_up : value -> result value.
Variable params : loc.
Variable tokens : list value.

Definition progress (w : world) (ev : progress_event) : world :=
  if verbose
  then {| w_machine := w_machine w; w_files := w_files w;
          w_stderr := w_stderr w ++ [ev] |}
  else w.

(** Lines 72-76: the loop over the pages of one object.  [i] is the index
    [enumerate] gives the next page, [count] the running total. *)
Fixpoint process_pages (fuel : nat) (obj : string) (i count : nat)
    (g : gen) (w : world) : status * world :=
  match fuel with
  | O => (OutOfFuel, w)
  | S fuel' =>
      match gen_next server (object_url base_url obj endpoint_name)
                     (p_key pager) (p_extractor pager) ramp_up
                     g (w_machine w) with
      | StopIteration m' => (Completed, with_machine w m')
      | Raised x m' => (Failed (Propagated x), with_machine w m')
      | Yielded e g' m' =>
          let w1 := with_machine w m' in
          match file_name obj i with
          | Raise x => (Failed (Propagated x), w1)
          | Ok path =>
              match serialize (view m' e) with
              | Raise x => (Failed (Propagated x), w1)
              | Ok data =>
                  match write_file path data overwrite (w_files w1) with
                  | None => (Failed AssertionError, w1)
                  | Some files =>
                      let w2 := with_files w1 files in
                      match data ← py_get (e_content e) "data" (VList []);
                            py_len data with
                      | Raise x => (Failed (Propagated x), w2)
                      | Ok n =>
                          process_pages fuel' obj (S i) (count + n) g'
                            (progress w2 (Report obj (count + n)))
                      end
                  end
              end
          end
      end
  end.

(** Lines 69-77: the loop over the objects; each gets a new generator on
    the same parameter mapping and credentials. *)
Fixpoint process_objects (fuel : nat) (objects : list string) (w : world)
  : status * world :=
  match objects with
  | [] => (Completed, w)
  | obj :: rest =>
      match process_pages fuel obj 1 0 (paginate params tokens) w with
      | (Completed, w1) => process_objects fuel rest (progress w1 EndOfObject)
      | stopped => stopped
      end
  end.
End Driver.

(** The options [process] reads.  The destination, format and type options
    enter through the file-name and serializer functions. *)
Record options := {
  o_objects : option (list string);
  o_objects_file : option (list string);
  o_tokens : option (list string);
  o_tokens_file : option (list string);
  o_endpoint : string;
  o_url : string;
  o_query_parameters : option (list (string * string));
  o_limit : Z;
  o_limit_factor : Z;
  o_limit_max : Z;
  o_overwrite : bool;
  o_verbose : bool
}.

(** [process], from line 54 on (lines 51-52 create the destination
    directory).  [endpoints] and [parameters] are the two tables; the second
    maps an endpoint name to the location of its parameter mapping. *)
Definition process (is_space : ascii -> bool)
    (server : list (string * gmap string value) -> string ->
              gmap string value -> response)
    (file_name : string -> nat -> result string)
    (serialize : snapshot -> result string)
    (fuel : nat) (opts : options)
    (endpoints : gmap string paginator) (parameters : gmap string loc)
    (w : world) : status * world :=
  let objects := one_of is_space [o_objects opts; o_objects_file opts] in
  let tokens := one_of is_space [o_tokens opts; o_tokens_file opts] in
  match parameters !! o_endpoint opts with
  | None => (Failed (Propagated KeyError), w)
  | Some lp =>
      match endpoints !! o_endpoint opts with
      | None => (Failed (Propagated KeyError), w)
      | Some pager =>
          let m := prepare_parameters lp (o_query_parameters opts)
                     (o_limit opts) (w_machine w) in
          process_objects server file_name serialize
            (o_overwrite opts) (o_verbose opts) (o_url opts) (o_endpoint opts)
            pager
            (ramp_value (geometric_ramp_up (o_limit_factor opts) (o_limit_max opts)))
            lp (map VStr tokens) fuel objects (with_machine w m)
      end
  end.

(** ** Fixtures for the driver *)

Fixpoint marks (n : nat) : string :=
  match n with
  | O => EmptyString
  | S n' => String "I"%char (marks n')
  end.


(** File names of the form [likes-<object>-<marks>], and a serializer that
    writes the credential and the cursor of the page's parameters. *)
Definition tally_name (obj : string) (i : nat) : result string :=
  Ok ("likes-" +:+ obj +:+ String "-"%char (marks i)).

Definition shown (o : option value) : string :=
  match o with
  | Some (VStr t) => t
  | _ => EmptyString
  end.

Definition token_and_cursor (p : snapshot) : result string :=
  Ok (shown (s_parameters p !! "access_token")
      +:+ String "/"%char (shown (s_parameters p !! "after"))).

Definition likes_options : options :=
  {| o_objects := Some ["40796308305 "; "7"];
     o_objects_file := None;
     o_tokens := Some ["A"];
     o_tokens_file := Some ["B" +:+ String "010"%char EmptyString];
     o_endpoint := "likes";
     o_url := "https://graph.facebook.com/v2.2/";
     o_query_parameters := Some [("limit", "7"); ("fields", "id"); ("fields", "name")];
     o_limit := 25;
     o_limit_factor := 2;
     o_limit_max := 3000;
     o_overwrite := false;
     o_verbose := true |}.

Definition likes_table : gmap string loc := {[ "likes" := 0%nat ]}.

Definition likes_world : world :=
  {| w_machine := caller_machine;
     w_files := {[ "old" := "keep" ]};
     w_stderr := [] |}.

Definition likes_process (fuel : nat) : status * world :=
  process Ascii.is_space two_page_server tally_name token_and_cursor fuel
          likes_options default_endpoints likes_table likes_world.

(** A server that answers with a JSON list, and the page loop of the
    fixtures on a server that never runs dry. *)
Definition list_server
    (history : list (string * gmap string value)) (url : string)
    (params : gmap string value) : response :=
  json_reply (VList []).


(** A destination that already holds the first page of the first object. *)
Definition taken_world : world :=
  {| w_machine := caller_machine;
     w_files := {[ "likes-40796308305-I" := "before" ]};
     w_stderr := [] |}.

(** * Properties *)

(** ** Splitting and joining *)

Lemma str_split_nonempty sep n s : str_split sep n s <> [].
Proof.
  destruct s as [|a s]; simpl; [discriminate|].
  destruct (bool_decide (a = sep) && may_split n); [discriminate|].
  destruct (str_split sep n s); discriminate.
Qed.

Lemma str_split_absent sep n s :
  str_has sep s = false -> str_split sep n s = [s].
Proof.
  induction s as [|a s IH]; simpl; [reflexivity|].
  intros H. apply orb_false_iff in H as [Ha Hs].
  rewrite Ha. simpl. rewrite (IH Hs). reflexivity.
Qed.

Lemma str_split_exhausted sep s : str_split sep (Some O) s = [s].
Proof.
  induction s as [|a s IH]; simpl; [reflexivity|].
  rewrite andb_false_r, IH. reflexivity.
Qed.

Lemma str_split_at_first sep n pre rest :
  str_has sep pre = false -> may_split n = true ->
  str_split sep n (pre +:+ String sep rest) = pre :: str_split sep (spend n) rest.
Proof.
  intros Hpre Hn. induction pre as [|a pre IH]; simpl.
  - rewrite bool_decide_eq_true_2 by reflexivity. rewrite Hn. reflexivity.
  - simpl in Hpre. apply orb_false_iff in Hpre as [Ha Hpre].
    rewrite Ha. simpl. rewrite (IH Hpre). reflexivity.
Qed.

Lemma str_split_join sep pieces :
  pieces <> [] -> Forall (fun p => str_has sep p = false) pieces ->
  str_split sep None (str_join sep pieces) = pieces.
Proof.
  induction pieces as [|p rest IH]; [congruence|].
  intros _ Hall. inversion Hall as [|? ? Hp Hrest]; subst.
  destruct rest as [|p' rest'].
  - simpl. apply str_split_absent, Hp.
  - change (str_join sep (p :: p' :: rest'))
      with (p +:+ String sep (str_join sep (p' :: rest'))).
    rewrite str_split_at_first by (assumption || reflexivity).
    simpl spend. rewrite IH by (assumption || discriminate). reflexivity.
Qed.

(** A pair splits on its first [=] into exactly two items; a component
    without [=] yields a single item. *)
Lemma split_pair k v :
  str_has chr_equals k = false ->
  str_split chr_equals (Some 1%nat) (k +:+ String chr_equals v) = [k; v].
Proof.
  intros Hk. rewrite str_split_at_first by (assumption || reflexivity).
  simpl spend. rewrite str_split_exhausted. reflexivity.
Qed.

Lemma split_no_equals p :
  str_has chr_equals p = false ->
  str_split chr_equals (Some 1%nat) p = [p].
Proof. apply str_split_absent. Qed.

(** ** Building the query mapping *)

Lemma dict_of_items_pairs acc (pairs : list (string * string)) :
  dict_of_items acc (map pair_items pairs) = Ok (foldl store_pair acc pairs).
Proof.
  revert acc. induction pairs as [|[k v] rest IH]; intros acc; simpl; [reflexivity|].
  apply IH.
Qed.

Lemma dict_of_items_short acc items p :
  [p] ∈ items -> dict_of_items acc items = Raise ValueError.
Proof.
  revert acc. induction items as [|it rest IH]; intros acc Hin.
  - inversion Hin.
  - destruct it as [|a [|b [|c it']]]; simpl in *; try reflexivity.
    apply IH.
    apply elem_of_cons in Hin as [Heq|Hin]; [discriminate|assumption].
Qed.

Lemma foldl_store_last (pairs1 pairs2 : list (string * string)) acc k v :
  k ∉ pairs2.*1 ->
  foldl store_pair acc (pairs1 ++ (k, v) :: pairs2) !! k = Some v.
Proof.
  intros Hk. rewrite foldl_app. simpl.
  generalize (foldl store_pair acc pairs1). intros m.
  assert (Hm : store_pair m (k, v) !! k = Some v) by apply lookup_insert_eq.
  revert Hm. generalize (store_pair m (k, v)). clear m.
  induction pairs2 as [|[k' v'] rest IH]; intros m Hm; simpl; [assumption|].
  apply IH.
  - intros Hin. apply Hk. simpl. apply elem_of_cons. right. assumption.
  - unfold store_pair. simpl. rewrite lookup_insert_ne; [assumption|].
    intros ->. apply Hk. simpl. apply elem_of_cons. left. reflexivity.
Qed.

(** ** The query-string parser *)

Lemma str_has_app c a b : str_has c (a +:+ b) = str_has c a || str_has c b.
Proof.
  induction a as [|x a IH]; simpl; [reflexivity|].
  rewrite IH. apply orb_assoc.
Qed.

Lemma extract_query_split pre q :
  str_has chr_question pre = false ->
  extract_query (pre +:+ String chr_question q) =
  dict_of_items ∅ (map (str_split chr_equals (Some 1%nat))
                       (str_split chr_amp None q)).
Proof.
  intros Hpre. unfold extract_query.
  rewrite str_split_at_first by (assumption || reflexivity).
  simpl spend. rewrite str_split_exhausted. reflexivity.
Qed.

Lemma extract_query_plain s :
  str_has chr_question s = false -> extract_query s = Ok ∅.
Proof.
  intros Hs. unfold extract_query. rewrite str_split_absent by assumption.
  reflexivity.
Qed.

Lemma extract_query_pairs pre (pairs : list (string * string)) :
  str_has chr_question pre = false ->
  pairs <> [] ->
  Forall plain_pair pairs ->
  extract_query (pre +:+ String chr_question
                         (str_join chr_amp (map pair_text pairs))) =
  Ok (foldl store_pair ∅ pairs).
Proof.
  intros Hpre Hne Hall. rewrite extract_query_split by assumption.
  rewrite str_split_join.
  - rewrite <- dict_of_items_pairs. f_equal.
    rewrite map_map. apply map_ext_Forall.
    eapply Forall_impl; [exact Hall|].
    intros [k v] (Hk & _ & _). simpl in *. apply split_pair, Hk.
  - destruct pairs; [congruence|discriminate].
  - apply Forall_map. eapply Forall_impl; [exact Hall|].
    intros [k v] (_ & Hk & Hv). unfold pair_text. simpl in *.
    rewrite str_has_app. simpl. rewrite Hk, Hv. reflexivity.
Qed.

Lemma extract_query_bare_component pre q p :
  str_has chr_question pre = false ->
  p ∈ str_split chr_amp None q ->
  str_has chr_equals p = false ->
  extract_query (pre +:+ String chr_question q) = Raise ValueError.
Proof.
  intros Hpre Hin Hp. rewrite extract_query_split by assumption.
  apply dict_of_items_short with (p := p).
  rewrite <- (split_no_equals p Hp).
  apply list_elem_of_fmap_2 with (f := str_split chr_equals (Some 1%nat)).
  exact Hin.
Qed.

(** ** Date-style extractor *)

Lemma extract_until_at d pg url :
  d !! "paging" = Some (VDict pg) ->
  pg !! "next" = Some (VStr url) ->
  extract_until (VDict d) = q ← extract_query url; Ok (str_or_none (q !! "until")).
Proof.
  intros Hd Hpg. unfold extract_until. simpl. rewrite Hd. simpl.
  rewrite Hpg. reflexivity.
Qed.

(** C5. [extract_until] returns "123" on the page whose [paging.next] is
    "https://x?until=123&limit=25", and none when [paging.next] is the empty
    string or [paging] is absent.  [extract_query] splits on the first [?]
    (a URL without [?] gives the empty mapping), then on every [&], then each
    component on its first [=]; for a query made of key=value pairs the
    mapping is built left to right, so the last occurrence of a key wins, and
    values are returned exactly as they stand in the URL, undecoded. *)
Theorem extract_until_query_parsing
    (pre : string) (pairs1 pairs2 : list (string * string)) (k v : string) :
  str_has chr_question pre = false ->
  Forall plain_pair (pairs1 ++ (k, v) :: pairs2) ->
  k ∉ pairs2.*1 ->
  extract_until (next_page "https://x?until=123&limit=25") = Ok (VStr "123")
  /\ extract_until (next_page EmptyString) = Ok VNone
  /\ (forall d, d !! "paging" = None -> extract_until (VDict d) = Ok VNone)
  /\ (forall s, str_has chr_question s = false -> extract_query s = Ok ∅)
  /\ (forall q, extract_query (pre +:+ String chr_question q) =
               dict_of_items ∅ (map (str_split chr_equals (Some 1%nat))
                                    (str_split chr_amp None q)))
  /\ (exists m, extract_query (query_url pre (pairs1 ++ (k, v) :: pairs2)) = Ok m
               /\ m !! k = Some v)
  /\ (k = "until" ->
      extract_until (next_page (query_url pre (pairs1 ++ (k, v) :: pairs2)))
      = Ok (VStr v)).
Proof.
  intros Hpre Hall Hk.
  assert (Hq : extract_query (query_url pre (pairs1 ++ (k, v) :: pairs2))
               = Ok (foldl store_pair ∅ (pairs1 ++ (k, v) :: pairs2))).
  { apply extract_query_pairs; [assumption| |assumption].
    destruct pairs1; discriminate. }
  split; [vm_compute; reflexivity|].
  split; [vm_compute; reflexivity|].
  split.
  { intros d Hd. unfold extract_until. simpl. rewrite Hd. reflexivity. }
  split; [exact extract_query_plain|].
  split; [intros q; apply extract_query_split, Hpre|].
  split.
  { eexists. split; [exact Hq|]. apply foldl_store_last, Hk. }
  intros ->. unfold next_page.
  rewrite (extract_until_at _ {[ "next" := VStr (query_url pre (pairs1 ++ ("until", v) :: pairs2)) ]} (query_url pre (pairs1 ++ ("until", v) :: pairs2))).
  - rewrite Hq. simpl. rewrite foldl_store_last by assumption. reflexivity.
  - apply lookup_singleton_eq.
  - apply lookup_singleton_eq.
Qed.

(** A URL with a duplicated key and percent-escapes in the values. *)
Lemma extract_until_query_parsing_witness :
  extract_until (next_page "https://x?until=1&limit=25&until=2015%2D01%2D01&fields=a=b")
  = Ok (VStr "2015%2D01%2D01").
Proof.
  refine (proj2 (proj2 (proj2 (proj2 (proj2 (proj2
    (extract_until_query_parsing "https://x"
       [("until", "1"); ("limit", "25")] [("fields", "a=b")]
       "until" "2015%2D01%2D01" _ _ _)))))) _).
  - reflexivity.
  - repeat constructor.
  - intros H. apply list_elem_of_In in H. simpl in H.
    destruct H as [H|[]]. discriminate H.
  - reflexivity.
Defined.

(** C10. [extract_query] is partial: when the URL has a [?] and some
    [&]-separated component of its query string has no [=], the mapping
    construction raises [ValueError], and so does [extract_until] on a page
    whose [paging.next] is that URL; "https://x?flag" is such a URL. *)
Theorem extract_until_not_total (pre q p : string) (d pg : gmap string value) :
  str_has chr_question pre = false ->
  p ∈ str_split chr_amp None q ->
  str_has chr_equals p = false ->
  d !! "paging" = Some (VDict pg) ->
  pg !! "next" = Some (VStr (pre +:+ String chr_question q)) ->
  extract_query (pre +:+ String chr_question q) = Raise ValueError
  /\ extract_until (VDict d) = Raise ValueError
  /\ extract_query "https://x?flag" = Raise ValueError
  /\ extract_until (next_page "https://x?flag") = Raise ValueError.
Proof.
  intros Hpre Hin Hp Hd Hpg.
  assert (Hq := extract_query_bare_component pre q p Hpre Hin Hp).
  split; [exact Hq|].
  split.
  { rewrite (extract_until_at d pg _ Hd Hpg), Hq. reflexivity. }
  split; vm_compute; reflexivity.
Qed.

Lemma extract_until_not_total_witness :
  extract_query "https://x?until=9&flag&limit=25" = Raise ValueError
  /\ extract_until (next_page "https://x?until=9&flag&limit=25") = Raise ValueError.
Proof.
  pose proof (extract_until_not_total "https://x" "until=9&flag&limit=25" "flag"
    {[ "paging" := VDict {[ "next" := VStr "https://x?until=9&flag&limit=25" ]} ]}
    {[ "next" := VStr "https://x?until=9&flag&limit=25" ]}) as H.
  destruct H as (H1 & H2 & _).
  - reflexivity.
  - vm_compute. apply list_elem_of_In. simpl. right. left. reflexivity.
  - reflexivity.
  - reflexivity.
  - reflexivity.
  - split; [exact H1|exact H2].
Defined.

(** ** Cursor-style extractor *)

(** C6. [extract_after] returns the value stored at
    [content.paging.cursors.after] when the three levels are present, and
    none when [paging], [cursors] or [after] is absent; it returns "X" on
    [{paging: {cursors: {after: "X"}}}] and none on [{}]. *)
Theorem extract_after_levels (d pg cs : gmap string value) (v : value) :
  (d !! "paging" = Some (VDict pg) -> pg !! "cursors" = Some (VDict cs) ->
   cs !! "after" = Some v -> extract_after (VDict d) = Ok v)
  /\ (d !! "paging" = None -> extract_after (VDict d) = Ok VNone)
  /\ (d !! "paging" = Some (VDict pg) -> pg !! "cursors" = None ->
      extract_after (VDict d) = Ok VNone)
  /\ (d !! "paging" = Some (VDict pg) -> pg !! "cursors" = Some (VDict cs) ->
      cs !! "after" = None -> extract_after (VDict d) = Ok VNone)
  /\ extract_after
       (VDict {[ "paging" := VDict {[ "cursors" := VDict {[ "after" := VStr "X" ]} ]} ]})
     = Ok (VStr "X")
  /\ extract_after (VDict ∅) = Ok VNone.
Proof.
  unfold extract_after. simpl.
  repeat split.
  - intros -> Hpg Hcs. simpl. rewrite Hpg. simpl. rewrite Hcs. reflexivity.
  - intros ->. reflexivity.
  - intros -> Hpg. simpl. rewrite Hpg. reflexivity.
  - intros -> Hpg Hcs. simpl. rewrite Hpg. simpl. rewrite Hcs. reflexivity.
Qed.

Lemma extract_after_levels_witness :
  extract_after
    (VDict {[ "data" := VList [VInt 1];
              "paging" := VDict {[ "cursors" := VDict {[ "before" := VStr "P";
                                                         "after" := VStr "Q" ]} ]} ]})
  = Ok (VStr "Q")
  /\ extract_after (VDict {[ "data" := VList [VInt 1] ]}) = Ok VNone
  /\ extract_after (VDict {[ "paging" := VDict {[ "next" := VStr "u" ]} ]}) = Ok VNone
  /\ extract_after
       (VDict {[ "paging" := VDict {[ "cursors" := VDict {[ "before" := VStr "P" ]} ]} ]})
     = Ok VNone.
Proof.
  split; [|split; [|split]].
  - apply (proj1 (extract_after_levels _
             {[ "cursors" := VDict {[ "before" := VStr "P"; "after" := VStr "Q" ]} ]}
             {[ "before" := VStr "P"; "after" := VStr "Q" ]} (VStr "Q")));
      reflexivity.
  - apply (proj1 (proj2 (extract_after_levels _ ∅ ∅ VNone))). reflexivity.
  - apply (proj1 (proj2 (proj2 (extract_after_levels _
             {[ "next" := VStr "u" ]} ∅ VNone)))); reflexivity.
  - apply (proj1 (proj2 (proj2 (proj2 (extract_after_levels _
             {[ "cursors" := VDict {[ "before" := VStr "P" ]} ]}
             {[ "before" := VStr "P" ]} VNone))))); reflexivity.
Defined.

(** ** Geometric ramp-up *)

Lemma ramp_iter_le multiplier ceiling start n :
  start <= ceiling ->
  Nat.iter n (geometric_ramp_up multiplier ceiling) start <= ceiling.
Proof.
  intros Hs. destruct n as [|n]; simpl; [assumption|].
  unfold geometric_ramp_up. apply Z.le_min_l.
Qed.

Lemma ramp_iter_grows multiplier ceiling start n :
  2 <= multiplier -> 0 < start <= ceiling ->
  Z.min ceiling (start + Z.of_nat n)
  <= Nat.iter n (geometric_ramp_up multiplier ceiling) start.
Proof.
  intros Hm Hs. induction n as [|n IH].
  - simpl. lia.
  - simpl Nat.iter. unfold geometric_ramp_up at 1.
    set (x := Nat.iter n (geometric_ramp_up multiplier ceiling) start) in *.
    assert (0 < x) by lia.
    assert (2 * x <= x * multiplier) by nia.
    lia.
Qed.

(** C4. The geometric policy is [min(ceiling, current * multiplier)] for
    every integer; with multiplier 2 and ceiling 3000 it maps 25 to 50; from a
    start at most the ceiling no number of applications exceeds the ceiling;
    and with a multiplier of at least 2 and a positive start the iterates
    reach the ceiling and stay there. *)
Theorem geometric_ramp_up_saturates (multiplier ceiling start : Z) :
  (forall current,
      geometric_ramp_up multiplier ceiling current
      = Z.min ceiling (current * multiplier))
  /\ geometric_ramp_up 2 3000 25 = 50
  /\ (start <= ceiling ->
      forall n, Nat.iter n (geometric_ramp_up multiplier ceiling) start <= ceiling)
  /\ (2 <= multiplier -> 0 < start <= ceiling ->
      exists N, forall n, (N <= n)%nat ->
        Nat.iter n (geometric_ramp_up multiplier ceiling) start = ceiling).
Proof.
  split; [reflexivity|].
  split; [reflexivity|].
  split.
  - intros Hs n. apply ramp_iter_le, Hs.
  - intros Hm Hs. exists (Z.to_nat ceiling). intros n Hn.
    pose proof (ramp_iter_grows multiplier ceiling start n Hm Hs) as Hlo.
    pose proof (ramp_iter_le multiplier ceiling start n (proj2 Hs)) as Hhi.
    lia.
Qed.

(** The default configuration: limit 25, factor 2, maximum 3000. *)
Lemma geometric_ramp_up_saturates_witness :
  (forall n, Nat.iter n (geometric_ramp_up 2 3000) 25 <= 3000)
  /\ (exists N, forall n, (N <= n)%nat ->
        Nat.iter n (geometric_ramp_up 2 3000) 25 = 3000).
Proof.
  pose proof (geometric_ramp_up_saturates 2 3000 25) as (_ & _ & Hle & Hsat).
  split.
  - apply Hle. lia.
  - apply Hsat; lia.
Defined.

(** ** The store *)

Lemma read_write_eq m l d : read (write m l d) l = d.
Proof. unfold read, write. simpl. apply lookup_total_insert_eq. Qed.

Lemma heap_write_ne m l l' d : l <> l' -> heap (write m l d) !! l' = heap m !! l'.
Proof. intros Hne. unfold write. simpl. apply lookup_insert_ne, Hne. Qed.

(** ** Rotation of the credential queue *)

Lemma rotate_step {A} (l q : list A) (x : A) (n : nat) :
  rotate n l = x :: q -> rotate (S n) l = q ++ [x].
Proof.
  intros Hrot.
  assert (Hlen : (0 < length l)%nat).
  { rewrite <- (length_rotate l n), Hrot. simpl. lia. }
  unfold rotate in *.
  set (len := length l) in *. set (i := (n mod len)%nat) in *.
  assert (Hi : (i < len)%nat) by (apply Nat.mod_upper_bound; lia).
  assert (Hn : n = (len * (n / len) + i)%nat) by (apply Nat.div_mod; lia).
  destruct (lookup_lt_is_Some_2 l i Hi) as [y Hy].
  rewrite (drop_S l y i Hy) in Hrot. simpl in Hrot.
  injection Hrot as -> <-.
  destruct (decide (S i = len)) as [Hlast|Hmid].
  - assert (Hmod : (S n mod len = 0)%nat).
    { symmetry. apply (Nat.mod_unique (S n) len (S (n / len)) 0); lia. }
    rewrite Hmod. simpl. rewrite app_nil_r.
    rewrite (drop_ge l (S i)) by (fold len; lia). simpl.
    rewrite <- (take_S_r l i x Hy). rewrite take_ge by (fold len; lia).
    reflexivity.
  - assert (Hmod : (S n mod len = S i)%nat).
    { symmetry. apply (Nat.mod_unique (S n) len (n / len) (S i)); lia. }
    rewrite Hmod. rewrite (take_S_r l i x Hy). rewrite app_assoc. reflexivity.
Qed.

Lemma rotate_head {A} (l : list A) (n : nat) :
  l <> [] -> head (rotate n l) = l !! (n mod length l)%nat.
Proof.
  intros Hne.
  assert (Hlen : (0 < length l)%nat) by (destruct l; simpl; [congruence|lia]).
  assert (Hi : (n mod length l < length l)%nat) by (apply Nat.mod_upper_bound; lia).
  unfold rotate.
  destruct (lookup_lt_is_Some_2 l _ Hi) as [y Hy].
  rewrite (drop_S l y _ Hy). simpl. symmetry. exact Hy.
Qed.

Lemma rotate_zero {A} (l : list A) : rotate 0 l = l.
Proof.
  unfold rotate. destruct l as [|a l]; [reflexivity|].
  rewrite Nat.Div0.mod_0_l. simpl. f_equal. apply app_nil_r.
Qed.

(** ** One step of the generator *)

Section Steps.
Variable server :
  list (string * gmap string value) -> string -> gmap string value -> response.
Variable endpoint : string.
Variable cursor_key : string.
Variable cursor_extractor : value -> result value.
Variable ramp_up : value -> result value.

Abbreviation send := (request server endpoint).
Abbreviation resume := (after_yield cursor_key cursor_extractor ramp_up).
Abbreviation next := (gen_next server endpoint cursor_key cursor_extractor ramp_up).
Abbreviation run := (drive server endpoint cursor_key cursor_extractor ramp_up).
Abbreviation page_of := (page_of server endpoint).
Abbreviation logged := (logged server endpoint).
Abbreviation suspended_ok := (suspended_ok endpoint).
Abbreviation run_inv := (run_inv server endpoint).
Abbreviation passes := (passes cursor_key cursor_extractor).

Lemma request_cons params tok queue m :
  send params (tok :: queue) m =
  let d := <["access_token" := tok]> (read m params) in
  let r := server (sent m) endpoint d in
  Yielded {| e_content := parse_response r; e_status := status_code r;
             e_endpoint := endpoint; e_parameters := params |}
          (Suspended params queue (parse_response r))
          {| heap := <[params := d]> (heap m);
             sent := sent m ++ [(endpoint, d)] |}.
Proof.
  unfold request. rewrite read_write_eq. reflexivity.
Qed.

Lemma after_yield_Continue params queue content m q m1 :
  resume params queue content m = Continue q m1 ->
  exists cursor data tok d1,
    cursor_extractor content = Ok cursor
    /\ py_get content "data" (VList []) = Ok data
    /\ continuation_test data cursor
         (default VNone (read m params !! cursor_key)) = true
    /\ read m params !! "access_token" = Some tok
    /\ q = queue ++ [tok]
    /\ sent m1 = sent m
    /\ heap m1 = <[params := d1]> (heap m)
    /\ (d1 = cursor_stored cursor_key cursor (read m params)
        \/ exists lim lim',
             cursor_stored cursor_key cursor (read m params) !! "limit" = Some lim
             /\ ramp_up lim = Ok lim'
             /\ d1 = <["limit" := lim']>
                       (cursor_stored cursor_key cursor (read m params))).
Proof.
  unfold after_yield.
  destruct (cursor_extractor content) as [cursor|x]; [|discriminate].
  destruct (py_get content "data" (VList [])) as [data|x]; [|discriminate].
  destruct (continuation_test data cursor _) eqn:Htest; [|discriminate].
  destruct (read m params !! "access_token") as [tok|] eqn:Htok; [|discriminate].
  rewrite read_write_eq.
  destruct (<[cursor_key:=cursor]> (read m params) !! "limit") as [lim|] eqn:Hlim.
  - destruct (ramp_up lim) as [lim'|x] eqn:Hramp; [|discriminate].
    intros [= <- <-].
    exists cursor, data, tok,
      (<["limit" := lim']> (cursor_stored cursor_key cursor (read m params))).
    repeat split; try reflexivity; try assumption.
    + unfold write. simpl. apply insert_insert_eq.
    + right. exists lim, lim'. repeat split; assumption.
  - intros [= <- <-].
    exists cursor, data, tok, (cursor_stored cursor_key cursor (read m params)).
    repeat split; try reflexivity; try assumption.
    left. reflexivity.
Qed.

Lemma after_yield_Break params queue content m m1 :
  resume params queue content m = Break m1 -> m1 = m.
Proof.
  unfold after_yield.
  destruct (cursor_extractor content) as [cursor|x]; [|discriminate].
  destruct (py_get content "data" (VList [])) as [data|x]; [|discriminate].
  destruct (continuation_test data cursor _).
  - destruct (read m params !! "access_token"); [|discriminate].
    destruct (read _ params !! "limit"); [|discriminate].
    destruct (ramp_up v0); discriminate.
  - intros [= <-]. reflexivity.
Qed.

Lemma after_yield_Throw params queue content m x m1 :
  resume params queue content m = Throw x m1 ->
  sent m1 = sent m /\ forall l, l <> params -> heap m1 !! l = heap m !! l.
Proof.
  unfold after_yield.
  destruct (cursor_extractor content) as [cursor|y];
    [|intros [= <- <-]; split; reflexivity].
  destruct (py_get content "data" (VList [])) as [data|y];
    [|intros [= <- <-]; split; reflexivity].
  destruct (continuation_test data cursor _); [|discriminate].
  destruct (read m params !! "access_token");
    [|intros [= <- <-]; split; reflexivity].
  destruct (read _ params !! "limit"); [|discriminate].
  destruct (ramp_up v0); [discriminate|].
  intros [= <- <-]. split; [reflexivity|].
  intros l Hl. apply heap_write_ne. congruence.
Qed.

(** *** The invariant of a run *)

Lemma rotate_nonempty {A} (l : list A) n x q : x :: q = rotate n l -> l <> [].
Proof.
  intros H ->. unfold rotate in H. rewrite drop_nil, take_nil in H.
  discriminate H.
Qed.

Lemma request_keeps tokens m0 p0 es m1 tok queue e g' m' :
  (forall l, l <> p0 -> heap m1 !! l = heap m0 !! l) ->
  Forall (fun e => e_parameters e = p0) es ->
  logged tokens (sent m0) es (sent m1) ->
  tok :: queue = rotate (length es) tokens ->
  send p0 (tok :: queue) m1 = Yielded e g' m' ->
  run_inv tokens m0 p0 (es ++ [e]) g' m'.
Proof.
  intros Hframe Hrefs (reqs & Hsent & Hlen & Hpages) Hrot.
  rewrite request_cons. cbv zeta. intros [= <- <- <-].
  set (d := <["access_token" := tok]> (read m1 p0)).
  split.
  - intros l Hl. simpl. rewrite lookup_insert_ne by congruence.
    apply Hframe, Hl.
  - apply Forall_app. split; [assumption|]. apply Forall_singleton. reflexivity.
  - exists (reqs ++ [(endpoint, d)]). simpl.
    split; [rewrite Hsent; symmetry; apply app_assoc|].
    split; [rewrite !length_app, Hlen; reflexivity|].
    intros k e Hk. apply lookup_snoc_Some in Hk as [[Hlt Hk]|[-> <-]].
    + destruct (Hpages k e Hk) as (d0 & Hd0 & Htok & Hpage).
      exists d0. split; [apply lookup_app_l_Some, Hd0|].
      split; [assumption|].
      rewrite take_app_le by lia. assumption.
    + exists d. split.
      { rewrite <- Hlen. rewrite lookup_app_r by lia.
        rewrite Nat.sub_diag. reflexivity. }
      split.
      { rewrite <- rotate_head by (eapply rotate_nonempty; eassumption).
        rewrite <- Hrot. simpl. unfold d. apply lookup_insert_eq. }
      rewrite take_app_length' by (symmetry; assumption).
      rewrite <- Hsent. repeat split.
  - simpl. split; [reflexivity|]. exists tok. eexists.
    unfold read. simpl. rewrite lookup_total_insert_eq.
    split; [apply lookup_insert_eq|].
    split; [rewrite length_app; simpl; rewrite Nat.add_1_r; exact Hrot|].
    split; [apply last_snoc|].
    split; [reflexivity|]. apply last_snoc.
Qed.

Lemma logged_nil tokens before : logged tokens before [] before.
Proof.
  exists []. split; [symmetry; apply app_nil_r|]. split; [reflexivity|].
  intros k e Hk. discriminate Hk.
Qed.

Lemma inv_first parameters tokens m0 e g m :
  next (Unstarted parameters tokens) m0 = Yielded e g m ->
  run_inv tokens m0 (fresh (dom (heap m0))) [e] g m.
Proof.
  simpl. destruct tokens as [|tok queue]; [discriminate|].
  intros Hreq.
  eapply (request_keeps (tok :: queue) m0 _ []); [| | | |exact Hreq].
  - intros l Hl. apply heap_write_ne. congruence.
  - constructor.
  - apply logged_nil.
  - simpl. symmetry. apply rotate_zero.
Qed.

Lemma inv_step tokens m0 p0 es g m e g' m' :
  run_inv tokens m0 p0 es g m ->
  next g m = Yielded e g' m' ->
  run_inv tokens m0 p0 (es ++ [e]) g' m'.
Proof.
  intros [Hframe Hrefs Hlog Hstate].
  destruct g as [parameters toks|params queue content|]; simpl;
    [destruct Hstate| |discriminate].
  destruct Hstate as (-> & tok & e0 & Htok & Hrot & Hlast & _ & _).
  destruct (resume p0 queue content m) as [q m1|m1|x m1] eqn:Hres;
    [|discriminate..].
  apply after_yield_Continue in Hres
    as (cursor & data & tok' & d1 & _ & _ & _ & Htok' & -> & Hsent & Hheap & _).
  rewrite Htok in Htok'. injection Htok' as <-.
  assert (Hpos : S (pred (length es)) = length es).
  { destruct es; [discriminate Hlast|reflexivity]. }
  symmetry in Hrot. apply rotate_step in Hrot. rewrite Hpos in Hrot.
  destruct (queue ++ [tok]) as [|t q'] eqn:Hq.
  { destruct queue; discriminate Hq. }
  intros Hreq. eapply request_keeps; [| | |symmetry; exact Hrot|exact Hreq].
  - intros l Hl. rewrite Hheap. rewrite lookup_insert_ne by congruence.
    apply Hframe, Hl.
  - assumption.
  - rewrite Hsent. assumption.
Qed.

Lemma inv_finish tokens m0 p0 es g m m' :
  run_inv tokens m0 p0 es g m ->
  (next g m = StopIteration m' \/ exists x, next g m = Raised x m') ->
  run_inv tokens m0 p0 es Finished m'.
Proof.
  intros [Hframe Hrefs Hlog Hstate] Hend.
  assert (Hsame : sent m' = sent m /\
                  forall l, l <> p0 -> heap m' !! l = heap m !! l).
  { destruct g as [parameters toks|params queue content|]; simpl in *;
      [destruct Hstate| |].
    - destruct Hstate as (-> & _).
      destruct (resume p0 queue content m) as [q m1|m1|x m1] eqn:Hres.
      + apply after_yield_Continue in Hres
          as (? & ? & tok & d1 & _ & _ & _ & _ & -> & Hsent & Hheap & _).
        destruct (queue ++ [tok]) as [|t q'] eqn:Hq.
        * simpl in Hend.
          assert (m' = m1) as ->
              by (destruct Hend as [Hend|[? Hend]]; congruence).
          split; [assumption|].
          intros l Hl. rewrite Hheap. apply lookup_insert_ne. congruence.
        * rewrite request_cons in Hend. cbv zeta in Hend.
          destruct Hend as [Hend|[? Hend]]; discriminate Hend.
      + apply after_yield_Break in Hres as ->.
        assert (m' = m) as ->
            by (destruct Hend as [Hend|[? Hend]]; congruence).
        split; reflexivity.
      + apply after_yield_Throw in Hres as [Hsent Hheap].
        assert (m' = m1) as ->
            by (destruct Hend as [Hend|[? Hend]]; congruence).
        split; assumption.
    - assert (m' = m) as ->
          by (destruct Hend as [Hend|[? Hend]]; congruence).
      split; reflexivity. }
  destruct Hsame as [Hsent Hheap].
  split.
  - intros l Hl. rewrite Hheap by assumption. apply Hframe, Hl.
  - assumption.
  - rewrite Hsent. assumption.
  - exact I.
Qed.

Lemma inv_first_end parameters tokens m0 m' :
  (next (Unstarted parameters tokens) m0 = StopIteration m'
   \/ exists x, next (Unstarted parameters tokens) m0 = Raised x m') ->
  run_inv tokens m0 (fresh (dom (heap m0))) [] Finished m'.
Proof.
  simpl. destruct tokens as [|tok queue].
  - simpl. intros Hend.
    assert (m' = write m0 (fresh (dom (heap m0))) (read m0 parameters)) as ->
        by (destruct Hend as [Hend|[? Hend]]; congruence).
    split.
    + intros l Hl. apply heap_write_ne. congruence.
    + constructor.
    + apply logged_nil.
    + exact I.
  - rewrite request_cons. cbv zeta.
    intros [Hend|[? Hend]]; discriminate Hend.
Qed.

(** After at least one [next()], the run satisfies the invariant. *)
Lemma run_invariant parameters tokens m0 n es g m :
  run (S n) (paginate parameters tokens) m0 = (es, g, m) ->
  run_inv tokens m0 (fresh (dom (heap m0))) es g m.
Proof.
  revert es g m. induction n as [|n IH]; intros es g m.
  - unfold paginate. cbn [drive].
    destruct (next (Unstarted parameters tokens) m0) as [e g1 m1|m1|x m1] eqn:Hn;
      intros [= <- <- <-].
    + apply inv_first in Hn. exact Hn.
    + apply (inv_first_end parameters). left. exact Hn.
    + apply (inv_first_end parameters). right. exists x. exact Hn.
  - change (run (S (S n)) (paginate parameters tokens) m0)
      with (let '(es, g1, m1) := run (S n) (paginate parameters tokens) m0 in
            match next g1 m1 with
            | Yielded e g2 m2 => (es ++ [e], g2, m2)
            | StopIteration m2 => (es, Finished, m2)
            | Raised _ m2 => (es, Finished, m2)
            end).
    destruct (run (S n) (paginate parameters tokens) m0) as [[es1 g1] m1].
    specialize (IH es1 g1 m1 eq_refl).
    destruct (next g1 m1) as [e g2 m2|m2|x m2] eqn:Hn; intros [= <- <- <-].
    + eapply inv_step; eassumption.
    + eapply inv_finish; [eassumption|]. left. exact Hn.
    + eapply inv_finish; [eassumption|]. right. exists x. exact Hn.
Qed.

Lemma run_zero g0 m0 es g m :
  run 0 g0 m0 = (es, g, m) -> es = [] /\ g = g0 /\ m = m0.
Proof. simpl. intros [= <- <- <-]. repeat split. Qed.

(** *** The continuation test *)

Lemma continue_passes params queue content m q m1 :
  resume params queue content m = Continue q m1 -> passes params content m.
Proof.
  intros Hres.
  apply after_yield_Continue in Hres
    as (cursor & data & _ & _ & Hc & Hd & Htest & _).
  unfold continuation_test in Htest.
  apply andb_true_iff in Htest as [Htest Hne].
  apply andb_true_iff in Htest as [Hdata Hcur].
  exists cursor, data. repeat split; assumption.
Qed.

Lemma passes_continue params queue content m tok :
  passes params content m ->
  read m params !! "access_token" = Some tok ->
  (forall cursor lim,
      cursor_extractor content = Ok cursor ->
      cursor_stored cursor_key cursor (read m params) !! "limit" = Some lim ->
      exists lim', ramp_up lim = Ok lim') ->
  exists m1, resume params queue content m = Continue (queue ++ [tok]) m1
             /\ sent m1 = sent m.
Proof.
  intros (cursor & data & Hc & Hd & Hdata & Hcur & Hne) Htok Hramp.
  unfold after_yield. rewrite Hc, Hd.
  unfold continuation_test. rewrite Hdata, Hcur, Hne. simpl.
  rewrite Htok. rewrite read_write_eq.
  destruct (<[cursor_key:=cursor]> (read m params) !! "limit") as [lim|] eqn:Hlim.
  - destruct (Hramp cursor lim Hc Hlim) as [lim' ->].
    eexists. split; reflexivity.
  - eexists. split; reflexivity.
Qed.

(** *** Results about runs *)

(** C9. [paginate] works on a private copy of the caller's parameter
    mapping: whatever the number of [next()] calls, the caller's mapping
    object holds what it held before the run, and every yielded envelope
    refers to another object. *)
Theorem caller_parameters_untouched parameters tokens m0 n es g m :
  is_Some (heap m0 !! parameters) ->
  run n (paginate parameters tokens) m0 = (es, g, m) ->
  heap m !! parameters = heap m0 !! parameters
  /\ Forall (fun e => e_parameters e <> parameters) es.
Proof.
  intros Halloc Hrun.
  assert (Hfresh : parameters <> fresh (dom (heap m0))).
  { intros Heq. apply (is_fresh (dom (heap m0))). rewrite <- Heq.
    apply elem_of_dom, Halloc. }
  destruct n as [|n].
  - apply run_zero in Hrun as (-> & _ & ->). split; [reflexivity|constructor].
  - apply run_invariant in Hrun as [Hframe Hrefs _ _].
    split; [apply Hframe, Hfresh|].
    eapply Forall_impl; [exact Hrefs|]. simpl. congruence.
Qed.

(** C7. Every request of a run yields a page, whether or not its body
    decodes: page [k] carries the status code of reply [k]; its content is
    the decoded body when [json()] succeeds and [{error: text}] when it
    raises. *)
Theorem undecodable_reply_still_yields parameters tokens m0 n es g m :
  run n (paginate parameters tokens) m0 = (es, g, m) ->
  exists reqs,
    sent m = sent m0 ++ reqs /\ length es = length reqs /\
    forall k d, reqs !! k = Some (endpoint, d) ->
      exists e, es !! k = Some e /\
        let r := server (sent m0 ++ take k reqs) endpoint d in
        e_status e = status_code r
        /\ (forall v, json r = Ok v -> e_content e = v)
        /\ (forall x, json r = Raise x ->
             e_content e = VDict {[ "error" := VStr (text r) ]}).
Proof.
  intros Hrun. destruct n as [|n].
  - apply run_zero in Hrun as (-> & _ & ->). exists [].
    split; [symmetry; apply app_nil_r|]. split; [reflexivity|].
    intros k d Hk. discriminate Hk.
  - apply run_invariant in Hrun as [_ _ (reqs & Hsent & Hlen & Hpages) _].
    exists reqs. split; [assumption|]. split; [symmetry; assumption|].
    intros k d Hk.
    assert (Hlt : (k < length es)%nat).
    { rewrite <- Hlen. apply lookup_lt_is_Some. eauto. }
    destruct (lookup_lt_is_Some_2 es k Hlt) as [e He].
    exists e. split; [assumption|].
    destruct (Hpages k e He) as (d' & Hd' & _ & Hc & Hs & _).
    rewrite Hk in Hd'. injection Hd' as <-.
    cbv zeta. split; [assumption|].
    unfold parse_response in Hc.
    split.
    + intros v Hv. rewrite Hv in Hc. assumption.
    + intros x Hx. rewrite Hx in Hc. assumption.
Qed.

(** C3. The credential queue is seeded with the caller's sequence in order
    and rotates: request [k] of a run carries credential [k mod n]; while
    the generator is suspended the credential in use followed by the queue
    is the sequence rotated by the number of earlier requests, and the
    credential in use goes to the back of the queue, which happens only on a
    passed continuation test.  With two credentials the first three requests
    carry the first, the second and again the first. *)
Theorem credentials_round_robin parameters tokens m0 n es g m :
  run n (paginate parameters tokens) m0 = (es, g, m) ->
  exists reqs,
    sent m = sent m0 ++ reqs
    /\ (forall k d, reqs !! k = Some (endpoint, d) ->
          d !! "access_token" = tokens !! (k mod length tokens)%nat)
    /\ (forall a b k d, tokens = [a; b] -> (k < 3)%nat ->
          reqs !! k = Some (endpoint, d) ->
          d !! "access_token" = Some (if Nat.even k then a else b))
    /\ match g with
       | Unstarted _ queue => queue = tokens /\ reqs = []
       | Suspended params queue content =>
           exists tok,
             read m params !! "access_token" = Some tok
             /\ tok :: queue = rotate (pred (length reqs)) tokens
             /\ forall q m1, resume params queue content m = Continue q m1 ->
                  passes params content m
                  /\ q = queue ++ [tok] /\ q = rotate (length reqs) tokens
       | Finished => True
       end.
Proof.
  intros Hrun. destruct n as [|n].
  - apply run_zero in Hrun as (-> & -> & ->). exists [].
    split; [symmetry; apply app_nil_r|].
    split; [intros k d Hk; discriminate Hk|].
    split; [intros a b k d _ _ Hk; discriminate Hk|].
    split; reflexivity.
  - apply run_invariant in Hrun as [_ _ (reqs & Hsent & Hlen & Hpages) Hstate].
    exists reqs. split; [assumption|].
    assert (Hmod : forall k d, reqs !! k = Some (endpoint, d) ->
              d !! "access_token" = tokens !! (k mod length tokens)%nat).
    { intros k d Hk.
      assert (Hlt : (k < length es)%nat).
      { rewrite <- Hlen. apply lookup_lt_is_Some. eauto. }
      destruct (lookup_lt_is_Some_2 es k Hlt) as [e He].
      destruct (Hpages k e He) as (d' & Hd' & Htok & _).
      rewrite Hk in Hd'. injection Hd' as <-. assumption. }
    split; [exact Hmod|].
    split.
    { intros a b k d -> Hk Hreq. rewrite (Hmod k d Hreq).
      destruct k as [|[|[|k]]]; [reflexivity..|lia]. }
    destruct g as [pl toks|params queue content|]; [destruct Hstate| |exact I].
    destruct Hstate as (-> & tok & e & Htok & Hrot & Hlast & _).
    exists tok. rewrite Hlen.
    split; [assumption|]. split; [assumption|].
    intros q m1 Hres.
    split; [eapply continue_passes; exact Hres|].
    apply after_yield_Continue in Hres
      as (_ & _ & tok' & _ & _ & _ & _ & Htok' & -> & _).
    rewrite Htok in Htok'. injection Htok' as <-.
    split; [reflexivity|].
    symmetry in Hrot. apply rotate_step in Hrot. rewrite <- Hrot.
    destruct es; [discriminate Hlast|reflexivity].
Qed.

Lemma run_dead g0 m0 m' n :
  run 1 g0 m0 = ([], Finished, m') ->
  run (S n) g0 m0 = ([], Finished, m').
Proof.
  intros H1. induction n as [|n IH]; [exact H1|].
  change (run (S (S n)) g0 m0)
    with (let '(es, g1, m1) := run (S n) g0 m0 in
          match next g1 m1 with
          | Yielded e g2 m2 => (es ++ [e], g2, m2)
          | StopIteration m2 => (es, Finished, m2)
          | Raised _ m2 => (es, Finished, m2)
          end).
  rewrite IH. reflexivity.
Qed.

(** C8. Seeded with at least one credential, the queue is never empty when
    a request is attempted: at the first [next()] the queue is the whole
    seed; while suspended the queue holds all credentials but the one in
    use, and when the continuation test passes the queue handed to the
    next request has the seed's size again, so its [popleft] succeeds and
    the request is made.  Seeded with no credential, the first [next()]
    raises [IndexError] before any request, and the generator is dead. *)
Theorem credential_queue_never_empty parameters tokens m0 :
  (tokens <> [] ->
   forall n es g m,
     run n (paginate parameters tokens) m0 = (es, g, m) ->
     match g with
     | Unstarted _ queue =>
         queue = tokens /\ exists e g' m', next g m = Yielded e g' m'
     | Suspended params queue content =>
         S (length queue) = length tokens /\
         forall q m1, resume params queue content m = Continue q m1 ->
           length q = length tokens /\
           exists e g' m', send params q m1 = Yielded e g' m'
     | Finished => True
     end)
  /\ (tokens = [] ->
      exists m',
        next (paginate parameters tokens) m0 = Raised IndexError m'
        /\ sent m' = sent m0
        /\ forall n, run (S n) (paginate parameters tokens) m0
                     = ([], Finished, m')).
Proof.
  split.
  - intros Hne n es g m Hrun. destruct n as [|n].
    + apply run_zero in Hrun as (-> & -> & ->). unfold paginate.
      split; [reflexivity|].
      destruct tokens as [|tok queue]; [congruence|].
      cbn [gen_next copy_dict]. rewrite request_cons. cbv zeta. eauto.
    + apply run_invariant in Hrun as [_ _ (reqs & _ & Hlen & _) Hstate].
      destruct g as [pl toks|params queue content|]; [destruct Hstate| |exact I].
      destruct Hstate as (-> & tok & e & Htok & Hrot & Hlast & _).
      assert (Hsize : S (length queue) = length tokens).
      { change (S (length queue)) with (length (tok :: queue)).
        rewrite Hrot. apply length_rotate. }
      split; [exact Hsize|].
      intros q m1 Hres.
      apply after_yield_Continue in Hres
        as (_ & _ & tok' & _ & _ & _ & _ & _ & -> & _).
      split; [rewrite length_app; simpl; lia|].
      destruct (queue ++ [tok']) as [|t q'] eqn:Hq.
      { destruct queue; discriminate Hq. }
      rewrite request_cons. cbv zeta. eauto.
  - intros ->. unfold paginate. cbn [gen_next copy_dict request].
    eexists. split; [reflexivity|]. split; [reflexivity|].
    intros n. apply run_dead. reflexivity.
Qed.

(** C1 (amended). For the page just yielded, the next [next()] issues
    exactly one further request if and only if the content's [data] is
    truthy (for a list: non-empty), the extractor returns a truthy cursor
    (for a string: non-empty) and that cursor differs from the value stored
    under the cursor key, the ramp-up policy returning normally on the
    limit; in every other case no request is issued and the generator ends,
    by exhaustion or with an exception. *)
Theorem continuation_rule parameters tokens m0 n es params queue content m :
  run n (paginate parameters tokens) m0
  = (es, Suspended params queue content, m) ->
  (forall cursor lim,
      cursor_extractor content = Ok cursor ->
      cursor_stored cursor_key cursor (read m params) !! "limit" = Some lim ->
      exists lim', ramp_up lim = Ok lim') ->
  (passes params content m <->
   exists e g' m',
     next (Suspended params queue content) m = Yielded e g' m'
     /\ sent m' = sent m ++ [(endpoint, read m' params)])
  /\ (~ passes params content m ->
      exists m',
        (next (Suspended params queue content) m = StopIteration m'
         \/ exists x, next (Suspended params queue content) m = Raised x m')
        /\ sent m' = sent m).
Proof.
  intros Hrun Hramp.
  assert (Htok : exists tok, read m params !! "access_token" = Some tok).
  { destruct n as [|n].
    - apply run_zero in Hrun as (_ & Hg & _). discriminate Hg.
    - apply run_invariant in Hrun as [_ _ _ (-> & tok & _ & Htok & _)].
      eauto. }
  destruct Htok as [tok Htok].
  split; [split|].
  - intros Hp.
    destruct (passes_continue params queue content m tok Hp Htok Hramp)
      as (m1 & Hres & Hsent).
    cbn [gen_next]. rewrite Hres.
    destruct (queue ++ [tok]) as [|t q'] eqn:Hq.
    { destruct queue; discriminate Hq. }
    rewrite request_cons. cbv zeta.
    eexists _, _, _. split; [reflexivity|].
    unfold read. simpl. rewrite lookup_total_insert_eq, Hsent. reflexivity.
  - intros (e & g' & m' & Hn & _). cbn [gen_next] in Hn.
    destruct (resume params queue content m) as [q m1|m1|x m1] eqn:Hres;
      [|discriminate..].
    eapply continue_passes. exact Hres.
  - intros Hnp. cbn [gen_next].
    destruct (resume params queue content m) as [q m1|m1|x m1] eqn:Hres.
    + exfalso. apply Hnp. eapply continue_passes. exact Hres.
    + apply after_yield_Break in Hres as ->. eauto.
    + apply after_yield_Throw in Hres as [Hsent _]. eauto.
Qed.

(** C2 (amended). The [parameters] item of every envelope of a run is a
    reference to the engine's one working mapping, not a copy.  While the
    generator is suspended, every envelope yielded so far reads as the
    parameters of the latest request; in particular the page just yielded
    reads as the parameters of its own request.  Once a further page is
    yielded, all envelopes, the earlier ones included, refer to the same
    object and show the newly extracted cursor under the cursor key. *)
Theorem envelope_parameters_shared
    parameters tokens m0 n es params queue content m :
  run n (paginate parameters tokens) m0
  = (es, Suspended params queue content, m) ->
  Forall (fun e => e_parameters e = params) es
  /\ Forall (fun e => last (sent m) = Some (endpoint, read m (e_parameters e))) es
  /\ (cursor_key <> "access_token" -> cursor_key <> "limit" ->
      forall e' g' m',
        next (Suspended params queue content) m = Yielded e' g' m' ->
        exists cursor,
          cursor_extractor content = Ok cursor
          /\ py_ne cursor (default VNone (read m params !! cursor_key)) = true
          /\ Forall (fun e => read m' (e_parameters e) !! cursor_key = Some cursor)
                    (es ++ [e'])).
Proof.
  intros Hrun. destruct n as [|n].
  { apply run_zero in Hrun as (_ & Hg & _). discriminate Hg. }
  apply run_invariant in Hrun as [_ Hrefs _ (-> & tok & e & Htok & _ & _ & _ & Hlast)].
  split; [assumption|]. split.
  { eapply Forall_impl; [exact Hrefs|]. simpl. intros e0 ->. assumption. }
  intros Hk1 Hk2 e' g' m' Hn. cbn [gen_next] in Hn.
  destruct (resume _ queue content m) as [q m1|m1|x m1] eqn:Hres;
    [|discriminate..].
  apply after_yield_Continue in Hres
    as (cursor & data & tok' & d1 & Hc & _ & Htest & _ & -> & _ & Hheap & Hd1).
  destruct (queue ++ [tok']) as [|t q'] eqn:Hq.
  { destruct queue; discriminate Hq. }
  rewrite request_cons in Hn. cbv zeta in Hn. injection Hn as <- <- <-.
  exists cursor. split; [assumption|]. split.
  { unfold continuation_test in Htest. apply andb_true_iff in Htest as [_ H].
    exact H. }
  assert (Hread : read m1 (fresh (dom (heap m0))) !! cursor_key = Some cursor).
  { unfold read. rewrite Hheap, lookup_total_insert_eq.
    destruct Hd1 as [->|(lim & lim' & _ & _ & ->)].
    - apply lookup_insert_eq.
    - rewrite lookup_insert_ne by congruence. apply lookup_insert_eq. }
  apply Forall_app. split.
  - eapply Forall_impl; [exact Hrefs|]. simpl. intros e0 ->.
    unfold read at 1. simpl. rewrite lookup_total_insert_eq.
    rewrite lookup_insert_ne by congruence. exact Hread.
  - apply Forall_singleton. simpl.
    unfold read at 1. simpl. rewrite lookup_total_insert_eq.
    rewrite lookup_insert_ne by congruence. exact Hread.
Qed.
End Steps.

(** ** The runs of the fixtures *)

Lemma caller_parameters_untouched_witness :
  is_Some (heap caller_machine !! 0%nat)
  /\ heap (likes_run rate_limited_server 5).2 !! 0%nat = Some likes_parameters
  /\ Forall (fun e => e_parameters e <> 0%nat) (likes_run rate_limited_server 5).1.1.
Proof.
  assert (Halloc : is_Some (heap caller_machine !! 0%nat))
    by (exists likes_parameters; reflexivity).
  split; [exact Halloc|].
  exact (caller_parameters_untouched rate_limited_server likes_url "after"
           extract_after default_ramp 0%nat [token_A; token_B] caller_machine 5
           (likes_run rate_limited_server 5).1.1
           (likes_run rate_limited_server 5).1.2
           (likes_run rate_limited_server 5).2 Halloc eq_refl).
Defined.

(** The fourth reply of the rate-limited server is plain text: the run still
    yields four pages, the last with the error content and status 429. *)
Lemma undecodable_reply_still_yields_witness :
  exists reqs e,
    sent (likes_run rate_limited_server 5).2 = reqs
    /\ length reqs = 4%nat
    /\ (likes_run rate_limited_server 5).1.1 !! 3%nat = Some e
    /\ e_status e = 429
    /\ e_content e = VDict {[ "error" := VStr "rate limit exceeded" ]}.
Proof.
  destruct (undecodable_reply_still_yields rate_limited_server likes_url "after"
              extract_after default_ramp 0%nat [token_A; token_B] caller_machine 5
              (likes_run rate_limited_server 5).1.1
              (likes_run rate_limited_server 5).1.2
              (likes_run rate_limited_server 5).2 eq_refl)
    as (reqs & Hsent & Hlen & Hpages).
  change (sent caller_machine ++ reqs) with reqs in Hsent.
  destruct (Hpages 3%nat
              (<["access_token" := token_B]> (<["after" := VStr "C3"]>
                 (<["limit" := VInt 200]> likes_parameters))))
    as (e & He & Hstatus & _ & Herror).
  { rewrite <- Hsent. vm_compute. reflexivity. }
  exists reqs, e.
  split; [exact Hsent|].
  split; [rewrite <- Hsent; reflexivity|].
  split; [exact He|].
  split.
  - rewrite Hstatus, <- Hsent. reflexivity.
  - erewrite Herror; rewrite <- Hsent; reflexivity.
Defined.

(** With credentials A and B, the four requests of the run carry A, B, A, B. *)
Lemma credentials_round_robin_witness :
  map (fun r => r.2 !! "access_token") (sent (likes_run rate_limited_server 5).2)
  = [Some token_A; Some token_B; Some token_A; Some token_B]
  /\ exists reqs,
      sent (likes_run rate_limited_server 3).2 = reqs
      /\ (forall k d, (k < 3)%nat -> reqs !! k = Some (likes_url, d) ->
            d !! "access_token" = Some (if Nat.even k then token_A else token_B)).
Proof.
  split; [vm_compute; reflexivity|].
  destruct (credentials_round_robin rate_limited_server likes_url "after"
              extract_after default_ramp 0%nat [token_A; token_B] caller_machine 3
              (likes_run rate_limited_server 3).1.1
              (likes_run rate_limited_server 3).1.2
              (likes_run rate_limited_server 3).2 eq_refl)
    as (reqs & Hsent & _ & Hab & _).
  change (sent caller_machine ++ reqs) with reqs in Hsent.
  exists reqs. split; [exact Hsent|].
  intros k d Hk Hreq. exact (Hab token_A token_B k d eq_refl Hk Hreq).
Defined.

(** After the first page of the run the queue holds B alone; the passed
    continuation test hands the queue [B; A] to the second request. *)
Lemma credential_queue_never_empty_witness :
  [token_A; token_B] <> []
  /\ (forall q m1,
        after_yield "after" extract_after default_ramp 1%nat [token_B] (page "C1")
                    (likes_run rate_limited_server 1).2 = Continue q m1 ->
        length q = 2%nat
        /\ exists e g' m',
            request rate_limited_server likes_url 1%nat q m1 = Yielded e g' m')
  /\ (exists m',
        likes_next rate_limited_server (paginate 0%nat []) caller_machine
        = Raised IndexError m'
        /\ sent m' = []).
Proof.
  assert (Hne : [token_A; token_B] <> []) by discriminate.
  split; [exact Hne|].
  split; [|destruct (proj2 (credential_queue_never_empty rate_limited_server
                      likes_url "after" extract_after default_ramp 0%nat []
                      caller_machine) eq_refl) as (m' & Hraise & Hsent & _);
           exists m'; split; [exact Hraise|exact Hsent]].
  exact (proj2 (proj1 (credential_queue_never_empty rate_limited_server likes_url
           "after" extract_after default_ramp 0%nat [token_A; token_B]
           caller_machine) Hne 1%nat
           (likes_run rate_limited_server 1).1.1
           (Suspended 1%nat [token_B] (page "C1"))
           (likes_run rate_limited_server 1).2 eq_refl)).
Defined.

(** After the first page (cursor C1, one data item, no cursor stored yet) the
    next [next()] sends exactly one request. *)
Lemma continuation_rule_witness :
  exists e g' m',
    likes_next rate_limited_server (Suspended 1%nat [token_B] (page "C1"))
               (likes_run rate_limited_server 1).2 = Yielded e g' m'
    /\ sent m' = sent (likes_run rate_limited_server 1).2 ++ [(likes_url, read m' 1%nat)].
Proof.
  assert (Hramp : forall cursor lim,
             extract_after (page "C1") = Ok cursor ->
             cursor_stored "after" cursor
               (read (likes_run rate_limited_server 1).2 1%nat) !! "limit"
             = Some lim ->
             exists lim', default_ramp lim = Ok lim').
  { intros cursor lim Hc Hl.
    vm_compute in Hc. injection Hc as <-.
    vm_compute in Hl. injection Hl as <-.
    exists (VInt 50). reflexivity. }
  apply (proj1 (proj1 (continuation_rule rate_limited_server likes_url "after"
           extract_after default_ramp 0%nat [token_A; token_B] caller_machine 1
           (likes_run rate_limited_server 1).1.1
           1%nat [token_B] (page "C1")
           (likes_run rate_limited_server 1).2 eq_refl Hramp))).
  exists (VStr "C1"), (VList [VDict ∅]). repeat split; vm_compute; reflexivity.
Defined.

(** C1, as stated, fails: a page with one data item whose [after] cursor is
    the empty string.  The extractor returns that string (not none), nothing
    is stored under the cursor key, so the condition as worded holds; yet the
    engine stops without a further request. *)
Lemma continuation_rule_counterexample :
  exists e g m,
    likes_next empty_cursor_server likes_gen caller_machine = Yielded e g m
    /\ extract_after (e_content e) = Ok (VStr EmptyString)
    /\ py_get (e_content e) "data" (VList []) = Ok (VList [VDict ∅])
    /\ read m (e_parameters e) !! "after" = None
    /\ stated_test (VList [VDict ∅]) (VStr EmptyString) VNone = true
    /\ likes_next empty_cursor_server g m = StopIteration m
    /\ length (sent m) = 1%nat.
Proof.
  eexists _, _, _. split; [vm_compute; reflexivity|].
  repeat split; vm_compute; reflexivity.
Qed.

(** On the two-page fixture both envelopes refer to location 1, and once
    the second page is out both read as the second request. *)
Lemma envelope_parameters_shared_witness :
  Forall (fun e => e_parameters e = 1%nat) (likes_run two_page_server 1).1.1
  /\ (forall e' g' m',
        likes_next two_page_server (Suspended 1%nat [token_B] (page "C1"))
                   (likes_run two_page_server 1).2 = Yielded e' g' m' ->
        exists cursor,
          extract_after (page "C1") = Ok cursor
          /\ Forall (fun e => read m' (e_parameters e) !! "after" = Some cursor)
                    ((likes_run two_page_server 1).1.1 ++ [e'])).
Proof.
  destruct (envelope_parameters_shared two_page_server likes_url "after"
              extract_after default_ramp 0%nat [token_A; token_B] caller_machine 1
              (likes_run two_page_server 1).1.1
              1%nat [token_B] (page "C1")
              (likes_run two_page_server 1).2 eq_refl)
    as (Hrefs & _ & Hnext).
  split; [exact Hrefs|].
  intros e' g' m' Hn.
  destruct (Hnext ltac:(discriminate) ltac:(discriminate) e' g' m' Hn)
    as (cursor & Hc & _ & Hall).
  exists cursor. split; [exact Hc|exact Hall].
Defined.

(** C2, as stated, fails: the envelope of page 1, read when it is yielded,
    shows credential A, limit 25 and no cursor; read again after the
    generator has produced page 2, the same envelope shows credential B,
    cursor C1 and limit 50. *)
Lemma envelope_parameters_shared_counterexample :
  exists e1 e2 g1 g2 m1 m2,
    likes_run two_page_server 1 = ([e1], g1, m1)
    /\ likes_run two_page_server 2 = ([e1; e2], g2, m2)
    /\ read m1 (e_parameters e1)
       = <["access_token" := token_A]> likes_parameters
    /\ read m2 (e_parameters e1)
       = <["access_token" := token_B]>
           (<["after" := VStr "C1"]> (<["limit" := VInt 50]> likes_parameters))
    /\ read m2 (e_parameters e1) <> read m1 (e_parameters e1).
Proof.
  eexists _, _, _, _, _, _.
  split; [vm_compute; reflexivity|].
  split; [vm_compute; reflexivity|].
  split; [vm_compute; reflexivity|].
  split; [vm_compute; reflexivity|].
  intros Heq. apply (f_equal (fun d => d !! "after")) in Heq.
  vm_compute in Heq. discriminate Heq.
Qed.

(** ** The chain of requests *)

Section Threads.
Variable server :
  list (string * gmap string value) -> string -> gmap string value -> response.
Variable endpoint : string.
Variable cursor_key : string.
Variable cursor_extractor : value -> result value.
Variable ramp_up : value -> result value.

Abbreviation send' := (request server endpoint).
Abbreviation resume' := (after_yield cursor_key cursor_extractor ramp_up).
Abbreviation next' := (gen_next server endpoint cursor_key cursor_extractor ramp_up).
Abbreviation run' := (drive server endpoint cursor_key cursor_extractor ramp_up).
Abbreviation linked' := (linked cursor_key cursor_extractor ramp_up).
Abbreviation chained' := (chained cursor_key cursor_extractor ramp_up).
Abbreviation threaded' := (threaded endpoint cursor_key cursor_extractor ramp_up).

Lemma after_yield_Continue_exact params queue content m q m1 :
  resume' params queue content m = Continue q m1 ->
  exists cursor data tok d1,
    cursor_extractor content = Ok cursor
    /\ py_get content "data" (VList []) = Ok data
    /\ continuation_test data cursor
         (default VNone (read m params !! cursor_key)) = true
    /\ q = queue ++ [tok]
    /\ sent m1 = sent m
    /\ heap m1 = <[params := d1]> (heap m)
    /\ match cursor_stored cursor_key cursor (read m params) !! "limit" with
       | None => d1 = cursor_stored cursor_key cursor (read m params)
       | Some lim =>
           exists lim', ramp_up lim = Ok lim'
             /\ d1 = <["limit" := lim']>
                       (cursor_stored cursor_key cursor (read m params))
       end.
Proof.
  unfold after_yield.
  destruct (cursor_extractor content) as [cursor|x]; [|discriminate].
  destruct (py_get content "data" (VList [])) as [data|x]; [|discriminate].
  destruct (continuation_test data cursor _) eqn:Htest; [|discriminate].
  destruct (read m params !! "access_token") as [tok|] eqn:Htok; [|discriminate].
  rewrite read_write_eq. unfold cursor_stored.
  destruct (<[cursor_key:=cursor]> (read m params) !! "limit") as [lim|] eqn:Hlim.
  - destruct (ramp_up lim) as [lim'|x] eqn:Hramp; [|discriminate].
    intros [= <- <-].
    exists cursor, data, tok, (<["limit" := lim']> (<[cursor_key:=cursor]> (read m params))).
    do 3 (split; [reflexivity || assumption|]).
    split; [reflexivity|]. split; [reflexivity|].
    split; [unfold write; simpl; apply insert_insert_eq|].
    rewrite Hlim. exists lim'. split; [assumption|reflexivity].
  - intros [= <- <-].
    exists cursor, data, tok, (<[cursor_key:=cursor]> (read m params)).
    do 3 (split; [reflexivity || assumption|]).
    split; [reflexivity|]. split; [reflexivity|].
    split; [reflexivity|]. rewrite Hlim. reflexivity.
Qed.

Lemma read_after_request params d m :
  read {| heap := <[params := d]> (heap m); sent := sent m ++ [(endpoint, d)] |}
       params = d.
Proof. unfold read. simpl. apply lookup_total_insert_eq. Qed.

Lemma threaded_start parameters tokens m0 :
  threaded' parameters tokens m0 [] (Unstarted parameters tokens) m0 [].
Proof.
  split; [symmetry; apply app_nil_r|]. split; [reflexivity|].
  split; [constructor|]. split; [constructor|].
  split; [|repeat split].
  split.
  - intros u d H. discriminate H.
  - intros j e u d u' d' H. discriminate H.
Qed.

Lemma threaded_end parameters tokens m0 es g m reqs m' :
  threaded' parameters tokens m0 es g m reqs ->
  sent m' = sent m ->
  threaded' parameters tokens m0 es Finished m' reqs.
Proof.
  intros (Hsent & Hlen & Hurl & Hep & Hchain & _) Hsame.
  split; [rewrite Hsame; assumption|].
  repeat (split; [assumption|]). exact I.
Qed.

Lemma threaded_first parameters tok queue m0 e g m :
  next' (Unstarted parameters (tok :: queue)) m0 = Yielded e g m ->
  exists d, threaded' parameters (tok :: queue) m0 [e] g m [(endpoint, d)].
Proof.
  cbn [gen_next copy_dict]. rewrite request_cons. cbv zeta.
  rewrite read_write_eq. intros [= <- <- <-].
  eexists. split; [reflexivity|]. split; [reflexivity|].
  split; [repeat constructor|]. split; [repeat constructor|].
  split.
  - split.
    + intros u d [= <- <-]. exists tok. reflexivity.
    + intros j e u d u' d' _ _ H. discriminate H.
  - split; [unfold read; simpl; rewrite lookup_total_insert_eq; reflexivity|].
    eexists. split; reflexivity.
Qed.

Lemma threaded_next parameters tokens m0 es params queue content m reqs e g' m' :
  threaded' parameters tokens m0 es (Suspended params queue content) m reqs ->
  next' (Suspended params queue content) m = Yielded e g' m' ->
  exists d, threaded' parameters tokens m0 (es ++ [e]) g' m' (reqs ++ [(endpoint, d)]).
Proof.
  intros (Hsent & Hlen & Hurl & Hep & [Hfirst Hlink] & Hlast & e0 & He0 & Hc0).
  cbn [gen_next].
  destruct (resume' params queue content m) as [q m1|m1|x m1] eqn:Hres;
    [|discriminate..].
  apply after_yield_Continue_exact in Hres
    as (cursor & data & tok & d1 & Hcur & Hdata & Htest & -> & Hsent1 & Hheap & Hd1).
  destruct (queue ++ [tok]) as [|t q'] eqn:Hq.
  { destruct queue; discriminate Hq. }
  rewrite request_cons. cbv zeta. intros [= <- <- <-].
  assert (Hread : read m1 params = d1).
  { unfold read. rewrite Hheap. apply lookup_total_insert_eq. }
  rewrite Hread.
  exists (<["access_token" := t]> d1).
  assert (Hpos : (0 < length reqs)%nat).
  { destruct reqs; [discriminate Hlast|simpl; lia]. }
  split; [simpl; rewrite Hsent1, Hsent; symmetry; apply app_assoc|].
  split; [rewrite !length_app, Hlen; reflexivity|].
  split; [apply Forall_app; split; [assumption|repeat constructor]|].
  split; [apply Forall_app; split; [assumption|repeat constructor]|].
  split.
  - split.
    + intros u d Hd. rewrite lookup_app_l in Hd by assumption. eauto.
    + intros j e u d u' d' He Hd Hd'.
      apply lookup_snoc_Some in Hd' as [[Hlt Hd']|[Hj Heq]].
      * rewrite lookup_app_l in He by lia.
        rewrite lookup_app_l in Hd by lia. eauto.
      * injection Heq as <- <-.
        assert (Hj' : j = pred (length reqs)) by lia.
        rewrite lookup_app_l in He by lia.
        rewrite lookup_app_l in Hd by lia.
        rewrite last_lookup in Hlast. rewrite last_lookup in He0.
        rewrite <- Hlen, <- Hj', He in He0. injection He0 as <-.
        rewrite <- Hj', Hd in Hlast. injection Hlast as -> ->.
        exists cursor, data, t, d1. rewrite Hc0.
        repeat (split; [assumption || reflexivity|]). exact Hd1.
  - split; [rewrite last_snoc; unfold read; simpl;
            rewrite lookup_total_insert_eq; reflexivity|].
    eexists. split; [apply last_snoc|reflexivity].
Qed.

Lemma run_threaded parameters tokens m0 n es g m :
  run' n (paginate parameters tokens) m0 = (es, g, m) ->
  exists reqs, threaded' parameters tokens m0 es g m reqs.
Proof.
  revert es g m. induction n as [|n IH]; intros es g m.
  - simpl. intros [= <- <- <-]. exists []. apply threaded_start.
  - cbn [drive].
    destruct (run' n (paginate parameters tokens) m0) as [[es1 g1] m1].
    destruct (IH es1 g1 m1 eq_refl) as [reqs Hth].
    destruct g1 as [p t|params queue content|].
    + destruct Hth as (_ & _ & _ & _ & _ & Hp & Ht & Hm & He). subst p t m1 es1.
      destruct tokens as [|tok queue].
      * cbn. intros [= <- <- <-]. exists [].
        eapply threaded_end; [apply threaded_start|reflexivity].
      * destruct (next' (Unstarted parameters (tok :: queue)) m0)
          as [e g2 m2|m2|x m2] eqn:Hn.
        -- intros [= <- <- <-]. apply threaded_first in Hn as [d Hd].
           exists [(endpoint, d)]. exact Hd.
        -- cbn [gen_next copy_dict] in Hn. rewrite request_cons in Hn.
           discriminate Hn.
        -- cbn [gen_next copy_dict] in Hn. rewrite request_cons in Hn.
           discriminate Hn.
    + destruct (next' (Suspended params queue content) m1)
        as [e g2 m2|m2|x m2] eqn:Hn; intros [= <- <- <-].
      * destruct (threaded_next _ _ _ _ _ _ _ _ _ _ _ _ Hth Hn) as [d Hd].
        eexists. exact Hd.
      * exists reqs. eapply threaded_end; [exact Hth|].
        cbn [gen_next] in Hn.
        destruct (resume' params queue content m1) as [q m'|m'|x m'] eqn:Hres.
        -- apply after_yield_Continue_exact in Hres
             as (_ & _ & tok & _ & _ & _ & _ & -> & Hs & _).
           destruct (queue ++ [tok]) as [|t q'] eqn:Hq.
           ++ destruct queue; discriminate Hq.
           ++ rewrite request_cons in Hn. discriminate Hn.
        -- apply after_yield_Break in Hres as ->. congruence.
        -- discriminate Hn.
      * exists reqs. eapply threaded_end; [exact Hth|].
        cbn [gen_next] in Hn.
        destruct (resume' params queue content m1) as [q m'|m'|y m'] eqn:Hres.
        -- apply after_yield_Continue_exact in Hres
             as (_ & _ & tok & _ & _ & _ & _ & -> & Hs & _).
           destruct (queue ++ [tok]) as [|t q'] eqn:Hq.
           ++ destruct queue; discriminate Hq.
           ++ rewrite request_cons in Hn. discriminate Hn.
        -- discriminate Hn.
        -- apply after_yield_Throw in Hres as [Hs _]. congruence.
    + cbn. intros [= <- <- <-]. exists reqs.
      eapply threaded_end; [exact Hth|reflexivity].
Qed.
Lemma chained_induction (P : nat -> gmap string value -> Prop)
    orig es (reqs : list (string * gmap string value)) :
  length reqs = length es ->
  chained' orig es reqs ->
  (forall tok, P 0%nat (<["access_token" := tok]> orig)) ->
  (forall j e d d', P j d -> linked' e d d' -> P (S j) d') ->
  forall j u d, reqs !! j = Some (u, d) -> P j d.
Proof.
  intros Hlen [Hfirst Hlink] H0 HS. induction j as [|j IH]; intros u d Hd.
  - destruct (Hfirst u d Hd) as [tok ->]. apply H0.
  - assert (Hlt : (j < length reqs)%nat).
    { apply lookup_lt_Some in Hd. lia. }
    destruct (lookup_lt_is_Some_2 reqs j Hlt) as [[u0 d0] Hd0].
    rewrite Hlen in Hlt.
    destruct (lookup_lt_is_Some_2 es j Hlt) as [e He].
    apply (HS j e d0 d); [eapply IH; exact Hd0|].
    eapply Hlink; eassumption.
Qed.

Lemma linked_other e d d' k :
  linked' e d d' ->
  k <> "access_token" -> k <> cursor_key -> k <> "limit" ->
  d' !! k = d !! k.
Proof.
  intros (cursor & data & tok & d1 & _ & _ & _ & -> & Hd1) Ha Hc Hl.
  rewrite lookup_insert_ne by congruence.
  unfold cursor_stored in Hd1.
  destruct (<[cursor_key:=cursor]> d !! "limit") as [lim|].
  - destruct Hd1 as (lim' & _ & ->).
    rewrite !lookup_insert_ne by congruence. reflexivity.
  - subst d1. rewrite lookup_insert_ne by congruence. reflexivity.
Qed.

Lemma linked_cursor e d d' :
  linked' e d d' ->
  cursor_key <> "access_token" -> cursor_key <> "limit" ->
  exists cursor,
    cursor_extractor (e_content e) = Ok cursor
    /\ py_ne cursor (default VNone (d !! cursor_key)) = true
    /\ d' !! cursor_key = Some cursor.
Proof.
  intros (cursor & data & tok & d1 & Hcur & _ & Htest & -> & Hd1) Ha Hl.
  exists cursor. split; [assumption|]. split.
  { unfold continuation_test in Htest. apply andb_true_iff in Htest as [_ H].
    exact H. }
  rewrite lookup_insert_ne by congruence.
  unfold cursor_stored in Hd1.
  destruct (<[cursor_key:=cursor]> d !! "limit") as [lim|].
  - destruct Hd1 as (lim' & _ & ->).
    rewrite lookup_insert_ne by congruence. apply lookup_insert_eq.
  - subst d1. apply lookup_insert_eq.
Qed.

Lemma linked_limit e d d' :
  linked' e d d' -> cursor_key <> "limit" ->
  match d !! "limit" with
  | None => d' !! "limit" = None
  | Some lim => exists lim', ramp_up lim = Ok lim' /\ d' !! "limit" = Some lim'
  end.
Proof.
  intros (cursor & data & tok & d1 & _ & _ & _ & -> & Hd1) Hk.
  unfold cursor_stored in Hd1.
  rewrite lookup_insert_ne in Hd1 by congruence.
  rewrite (lookup_insert_ne _ "access_token" "limit") by discriminate.
  destruct (d !! "limit") as [lim|] eqn:Hlim.
  - destruct Hd1 as (lim' & Hr & ->). exists lim'.
    split; [assumption|apply lookup_insert_eq].
  - subst d1. rewrite lookup_insert_ne by congruence. assumption.
Qed.

(** X1. Every request of a run goes to the one endpoint URL the generator
    was created with, every page names that URL, and there are exactly as
    many pages as requests. *)
Theorem requests_to_one_endpoint parameters tokens m0 n es g m :
  run' n (paginate parameters tokens) m0 = (es, g, m) ->
  exists reqs,
    sent m = sent m0 ++ reqs
    /\ length reqs = length es
    /\ Forall (fun r => r.1 = endpoint) reqs
    /\ Forall (fun e => e_endpoint e = endpoint) es.
Proof.
  intros Hrun. apply run_threaded in Hrun as (reqs & H1 & H2 & H3 & H4 & _).
  exists reqs. repeat split; assumption.
Qed.

(** X2. Apart from the access token, the cursor key and the limit, every
    parameter of every request of a run is the caller's: present with the
    caller's value, or absent as in the caller's mapping. *)
Theorem other_parameters_preserved parameters tokens m0 n es g m k :
  k <> "access_token" -> k <> cursor_key -> k <> "limit" ->
  run' n (paginate parameters tokens) m0 = (es, g, m) ->
  exists reqs,
    sent m = sent m0 ++ reqs
    /\ forall j u d, reqs !! j = Some (u, d) ->
         d !! k = read m0 parameters !! k.
Proof.
  intros Ha Hc Hl Hrun.
  apply run_threaded in Hrun as (reqs & Hsent & Hlen & _ & _ & Hchain & _).
  exists reqs. split; [assumption|].
  apply (chained_induction (fun _ d => d !! k = read m0 parameters !! k)
           _ es reqs Hlen Hchain).
  - intros tok. apply lookup_insert_ne. congruence.
  - intros j e d d' IH Hlink. rewrite <- IH. eapply linked_other; eassumption.
Qed.

(** X3. With a cursor key other than [limit] and a policy acting on
    integers as [f], request [j] of a run asks for the caller's limit
    ramped [j] times; when the caller set no limit, no request carries
    one. *)
Theorem limit_follows_ramp (f : Z -> Z) parameters tokens m0 n es g m :
  cursor_key <> "limit" ->
  (forall z, ramp_up (VInt z) = Ok (VInt (f z))) ->
  run' n (paginate parameters tokens) m0 = (es, g, m) ->
  exists reqs,
    sent m = sent m0 ++ reqs
    /\ (forall l0, read m0 parameters !! "limit" = Some (VInt l0) ->
        forall j u d, reqs !! j = Some (u, d) ->
          d !! "limit" = Some (VInt (Nat.iter j f l0)))
    /\ (read m0 parameters !! "limit" = None ->
        forall j u d, reqs !! j = Some (u, d) -> d !! "limit" = None).
Proof.
  intros Hk Hf Hrun.
  apply run_threaded in Hrun as (reqs & Hsent & Hlen & _ & _ & Hchain & _).
  exists reqs. split; [assumption|]. split.
  - intros l0 Hl0.
    apply (chained_induction
             (fun j d => d !! "limit" = Some (VInt (Nat.iter j f l0)))
             _ es reqs Hlen Hchain).
    + intros tok. rewrite lookup_insert_ne by discriminate. assumption.
    + intros j e d d' IH Hlink.
      pose proof (linked_limit e d d' Hlink Hk) as Hlim.
      rewrite IH in Hlim. destruct Hlim as (lim' & Hr & ->).
      rewrite Hf in Hr. injection Hr as <-. reflexivity.
  - intros Hnone.
    apply (chained_induction (fun _ d => d !! "limit" = None)
             _ es reqs Hlen Hchain).
    + intros tok. rewrite lookup_insert_ne by discriminate. assumption.
    + intros j e d d' IH Hlink.
      pose proof (linked_limit e d d' Hlink Hk) as Hlim.
      rewrite IH in Hlim. assumption.
Qed.

(** X4. With a cursor key other than [access_token] and [limit], the
    first request of a run carries the caller's cursor-key value (or none),
    and each later request carries, under the cursor key, the cursor
    extracted from the page before it. *)
Theorem cursor_threaded parameters tokens m0 n es g m :
  cursor_key <> "access_token" -> cursor_key <> "limit" ->
  run' n (paginate parameters tokens) m0 = (es, g, m) ->
  exists reqs,
    sent m = sent m0 ++ reqs
    /\ (forall u d, reqs !! 0%nat = Some (u, d) ->
          d !! cursor_key = read m0 parameters !! cursor_key)
    /\ (forall j u d, reqs !! S j = Some (u, d) ->
          exists e cursor,
            es !! j = Some e
            /\ cursor_extractor (e_content e) = Ok cursor
            /\ d !! cursor_key = Some cursor).
Proof.
  intros Ha Hl Hrun.
  apply run_threaded in Hrun
    as (reqs & Hsent & Hlen & _ & _ & [Hfirst Hlink] & _).
  exists reqs. split; [assumption|]. split.
  - intros u d Hd. destruct (Hfirst u d Hd) as [tok ->].
    apply lookup_insert_ne. congruence.
  - intros j u d Hd.
    assert (Hlt : (j < length reqs)%nat).
    { apply lookup_lt_Some in Hd. lia. }
    destruct (lookup_lt_is_Some_2 reqs j Hlt) as [[u0 d0] Hd0].
    rewrite Hlen in Hlt.
    destruct (lookup_lt_is_Some_2 es j Hlt) as [e He].
    destruct (linked_cursor e d0 d (Hlink j e u0 d0 u d He Hd0 Hd) Ha Hl)
      as (cursor & Hcur & _ & Hd').
    exists e, cursor. repeat split; assumption.
Qed.

(** X5. The stagnation guard compares with the page before: with a cursor
    key other than [access_token] and [limit], when a page yields the same
    string cursor as the page before it, the next [next()] sends no request
    and ends the generator. *)
Theorem repeated_cursor_stops
    parameters tokens m0 n es params queue content m j e c :
  cursor_key <> "access_token" -> cursor_key <> "limit" ->
  run' n (paginate parameters tokens) m0
  = (es, Suspended params queue content, m) ->
  length es = S (S j) ->
  es !! j = Some e ->
  cursor_extractor (e_content e) = Ok (VStr c) ->
  cursor_extractor content = Ok (VStr c) ->
  exists m',
    (next' (Suspended params queue content) m = StopIteration m'
     \/ exists x, next' (Suspended params queue content) m = Raised x m')
    /\ sent m' = sent m.
Proof.
  intros Ha Hl Hrun Hlen He Hprev Hcur.
  apply run_threaded in Hrun
    as (reqs & Hsent & Hlen' & _ & _ & [Hfirst Hlink] & Hlast & _).
  rewrite last_lookup in Hlast. rewrite Hlen', Hlen in Hlast. simpl in Hlast.
  assert (Hlt : (j < length reqs)%nat) by lia.
  destruct (lookup_lt_is_Some_2 reqs j Hlt) as [[u0 d0] Hd0].
  destruct (linked_cursor e d0 _ (Hlink j e u0 d0 _ _ He Hd0 Hlast) Ha Hl)
    as (cursor & Hcur' & _ & Hstored).
  rewrite Hprev in Hcur'. injection Hcur' as <-.
  cbn [gen_next]. unfold after_yield. rewrite Hcur.
  destruct (py_get content "data" (VList [])) as [data|x]; [|eauto].
  rewrite Hstored. simpl.
  unfold continuation_test, py_ne. simpl.
  rewrite bool_decide_eq_true_2 by reflexivity.
  rewrite andb_false_r. eauto.
Qed.
End Threads.

(** ** Witnesses for the chain of requests *)

Lemma requests_to_one_endpoint_witness :
  exists reqs,
    sent (likes_run rate_limited_server 5).2 = reqs
    /\ length reqs = 4%nat
    /\ Forall (fun r => r.1 = likes_url) reqs
    /\ Forall (fun e => e_endpoint e = likes_url)
              (likes_run rate_limited_server 5).1.1.
Proof.
  destruct (requests_to_one_endpoint rate_limited_server likes_url "after"
              extract_after default_ramp 0%nat [token_A; token_B] caller_machine 5
              (likes_run rate_limited_server 5).1.1
              (likes_run rate_limited_server 5).1.2
              (likes_run rate_limited_server 5).2 eq_refl)
    as (reqs & Hsent & Hlen & Hurl & Hep).
  change (sent caller_machine ++ reqs) with reqs in Hsent.
  exists reqs. split; [exact Hsent|]. split; [exact Hlen|].
  split; [exact Hurl|exact Hep].
Defined.

(** The caller's [summary] parameter is in each of the four requests. *)
Lemma other_parameters_preserved_witness :
  Forall (fun r => r.2 !! "summary" = Some (VInt 1))
         (sent (likes_run rate_limited_server 5).2).
Proof.
  destruct (other_parameters_preserved rate_limited_server likes_url "after"
              extract_after default_ramp 0%nat [token_A; token_B] caller_machine 5
              (likes_run rate_limited_server 5).1.1
              (likes_run rate_limited_server 5).1.2
              (likes_run rate_limited_server 5).2 "summary"
              ltac:(discriminate) ltac:(discriminate) ltac:(discriminate) eq_refl)
    as (reqs & Hsent & Hkeep).
  change (sent caller_machine ++ reqs) with reqs in Hsent.
  rewrite Hsent. apply Forall_lookup. intros j [u d] Hj.
  exact (Hkeep j u d Hj).
Defined.

(** From limit 25 with factor 2 the fourth request asks for 200. *)
Lemma limit_follows_ramp_witness :
  exists u d,
    sent (likes_run rate_limited_server 5).2 !! 3%nat = Some (u, d)
    /\ d !! "limit" = Some (VInt 200).
Proof.
  destruct (limit_follows_ramp rate_limited_server likes_url "after"
              extract_after default_ramp (geometric_ramp_up 2 3000)
              0%nat [token_A; token_B] caller_machine 5
              (likes_run rate_limited_server 5).1.1
              (likes_run rate_limited_server 5).1.2
              (likes_run rate_limited_server 5).2
              ltac:(discriminate) (fun z => eq_refl) eq_refl)
    as (reqs & Hsent & Hramp & _).
  change (sent caller_machine ++ reqs) with reqs in Hsent.
  rewrite Hsent.
  destruct (lookup_lt_is_Some_2 reqs 3) as [[u d] Hd].
  { rewrite <- Hsent. vm_compute. lia. }
  exists u, d. split; [exact Hd|].
  exact (Hramp 25 eq_refl 3%nat u d Hd).
Defined.

(** The second request carries the cursor C1 of the first page. *)
Lemma cursor_threaded_witness :
  exists u d e cursor,
    sent (likes_run rate_limited_server 5).2 !! 1%nat = Some (u, d)
    /\ (likes_run rate_limited_server 5).1.1 !! 0%nat = Some e
    /\ extract_after (e_content e) = Ok cursor
    /\ d !! "after" = Some cursor.
Proof.
  destruct (cursor_threaded rate_limited_server likes_url "after"
              extract_after default_ramp 0%nat [token_A; token_B] caller_machine 5
              (likes_run rate_limited_server 5).1.1
              (likes_run rate_limited_server 5).1.2
              (likes_run rate_limited_server 5).2
              ltac:(discriminate) ltac:(discriminate) eq_refl)
    as (reqs & Hsent & _ & Hnext).
  change (sent caller_machine ++ reqs) with reqs in Hsent.
  rewrite Hsent.
  destruct (lookup_lt_is_Some_2 reqs 1) as [[u d] Hd].
  { rewrite <- Hsent. vm_compute. lia. }
  destruct (Hnext 0%nat u d Hd) as (e & cursor & He & Hc & Hk).
  exists u, d, e, cursor. repeat split; assumption.
Defined.

(** The stuck server repeats cursor C1: the run ends after two pages. *)
Lemma repeated_cursor_stops_witness :
  exists m',
    (likes_next stuck_server (Suspended 1%nat [token_A] (page "C1"))
                (likes_run stuck_server 2).2 = StopIteration m'
     \/ exists x,
          likes_next stuck_server (Suspended 1%nat [token_A] (page "C1"))
                     (likes_run stuck_server 2).2 = Raised x m')
    /\ sent m' = sent (likes_run stuck_server 2).2.
Proof.
  apply (repeated_cursor_stops stuck_server likes_url "after"
           extract_after default_ramp 0%nat [token_A; token_B] caller_machine 2
           (likes_run stuck_server 2).1.1 1%nat [token_A] (page "C1")
           (likes_run stuck_server 2).2 0%nat
           {| e_content := page "C1"; e_status := 200;
              e_endpoint := likes_url; e_parameters := 1%nat |} "C1");
    try discriminate; reflexivity.
Defined.

(** ** Replies the extractors cannot use *)

Lemma error_page_after (v : value) :
  extract_after (VDict {[ "error" := v ]}) = Ok VNone.
Proof.
  unfold extract_after. simpl.
  rewrite lookup_singleton_ne by discriminate. reflexivity.
Qed.

Lemma error_page_until (v : value) :
  extract_until (VDict {[ "error" := v ]}) = Ok VNone.
Proof.
  unfold extract_until. simpl.
  rewrite lookup_singleton_ne by discriminate. reflexivity.
Qed.

Lemma error_page_no_data (v : value) :
  py_get (VDict {[ "error" := v ]}) "data" (VList []) = Ok (VList []).
Proof.
  simpl. rewrite lookup_singleton_ne by discriminate. reflexivity.
Qed.

(** X6. A reply that does not decode ends the pagination quietly: the
    request yields the page [{error: text}], and the following [next()] of
    either paginator stops without a further request. *)
Theorem undecodable_reply_ends_run server url ramp params tok queue m x :
  json (server (sent m) url (<["access_token" := tok]> (read m params)))
  = Raise x ->
  exists e g' m',
    request server url params (tok :: queue) m = Yielded e g' m'
    /\ e_content e
       = VDict {[ "error" :=
                    VStr (text (server (sent m) url
                                  (<["access_token" := tok]> (read m params)))) ]}
    /\ next_cursors server url ramp g' m' = StopIteration m'
    /\ next_dates server url ramp g' m' = StopIteration m'.
Proof.
  intros Hjson. rewrite request_cons. cbv zeta.
  eexists _, _, _. split; [reflexivity|].
  unfold parse_response. rewrite Hjson. simpl e_content.
  split; [reflexivity|].
  unfold next_cursors, next_dates. cbn [gen_next]. unfold after_yield.
  rewrite error_page_after, error_page_until, error_page_no_data.
  split; reflexivity.
Qed.

(** X7. A reply that decodes to something the extractors cannot walk (a
    body that is not a mapping, or whose [paging] is not one) is still
    yielded as a page; the following [next()] of either paginator raises
    [AttributeError] and sends nothing. *)
Theorem ill_shaped_body_raises server url ramp params tok queue m v :
  json (server (sent m) url (<["access_token" := tok]> (read m params)))
  = Ok v ->
  ill_shaped v ->
  exists e g' m',
    request server url params (tok :: queue) m = Yielded e g' m'
    /\ e_content e = v
    /\ next_cursors server url ramp g' m' = Raised AttributeError m'
    /\ next_dates server url ramp g' m' = Raised AttributeError m'.
Proof.
  intros Hjson Hshape. rewrite request_cons. cbv zeta.
  eexists _, _, _. split; [reflexivity|].
  unfold parse_response. rewrite Hjson. simpl e_content.
  split; [reflexivity|].
  unfold next_cursors, next_dates. cbn [gen_next]. unfold after_yield.
  assert (Hafter : extract_after v = Raise AttributeError).
  { destruct Hshape as [Hv|(d & pg & -> & Hpg & Hm)].
    - destruct v; try reflexivity. discriminate Hv.
    - unfold extract_after. simpl. rewrite Hpg. simpl.
      destruct pg; try reflexivity. discriminate Hm. }
  assert (Huntil : extract_until v = Raise AttributeError).
  { destruct Hshape as [Hv|(d & pg & -> & Hpg & Hm)].
    - destruct v; try reflexivity. discriminate Hv.
    - unfold extract_until. simpl. rewrite Hpg. simpl.
      destruct pg; try reflexivity. discriminate Hm. }
  rewrite Hafter, Huntil. split; reflexivity.
Qed.

Lemma undecodable_reply_ends_run_witness :
  exists e g' m',
    request rate_limited_server likes_url 1%nat [token_B; token_A]
            (likes_run rate_limited_server 3).2 = Yielded e g' m'
    /\ e_content e = VDict {[ "error" := VStr "rate limit exceeded" ]}
    /\ next_cursors rate_limited_server likes_url default_ramp g' m'
       = StopIteration m'
    /\ next_dates rate_limited_server likes_url default_ramp g' m'
       = StopIteration m'.
Proof.
  exact (undecodable_reply_ends_run rate_limited_server likes_url default_ramp
           1%nat token_B [token_A] (likes_run rate_limited_server 3).2
           ValueError eq_refl).
Defined.

(** ** Stripping *)

Lemma str_lstrip_first f s a :
  str_first (str_lstrip f s) = Some a -> f a = false.
Proof.
  induction s as [|b s IH]; simpl; [discriminate|].
  destruct (f b) eqn:Hb; [exact IH|].
  simpl. intros [= <-]. exact Hb.
Qed.

Lemma str_rstrip_last f s a :
  str_last (str_rstrip f s) = Some a -> f a = false.
Proof.
  induction s as [|b s IH]; simpl; [discriminate|].
  destruct (str_rstrip f s) as [|c rest] eqn:Hr.
  - destruct (f b) eqn:Hb; simpl; [discriminate|].
    intros [= <-]. exact Hb.
  - exact IH.
Qed.

Lemma str_rstrip_first f s a :
  str_first (str_rstrip f s) = Some a -> str_first s = Some a.
Proof.
  destruct s as [|b s]; simpl; [discriminate|].
  destruct (str_rstrip f s) as [|c rest].
  - destruct (f b); simpl; [discriminate|]. intros H. exact H.
  - simpl. intros H. exact H.
Qed.

Lemma str_lstrip_fixed f s :
  (forall a, str_first s = Some a -> f a = false) -> str_lstrip f s = s.
Proof.
  destruct s as [|b s]; simpl; [reflexivity|].
  intros H. rewrite (H b eq_refl). reflexivity.
Qed.

Lemma str_rstrip_fixed f s :
  (forall a, str_last s = Some a -> f a = false) -> str_rstrip f s = s.
Proof.
  induction s as [|b s IH]; simpl; [reflexivity|].
  intros H. destruct s as [|c s'].
  - simpl. rewrite (H b eq_refl). reflexivity.
  - rewrite IH by exact H. reflexivity.
Qed.

Lemma str_all_app f a b : str_all f (a +:+ b) = str_all f a && str_all f b.
Proof.
  induction a as [|x a IH]; simpl; [reflexivity|].
  rewrite IH. apply andb_assoc.
Qed.

Lemma str_lstrip_split f s :
  exists pre, s = pre +:+ str_lstrip f s /\ str_all f pre = true.
Proof.
  induction s as [|b s (pre & Hs & Hpre)]; simpl.
  - exists EmptyString. split; reflexivity.
  - destruct (f b) eqn:Hb.
    + exists (String b pre). split.
      * change (String b s = String b (pre +:+ str_lstrip f s)).
        f_equal. exact Hs.
      * simpl. rewrite Hb. exact Hpre.
    + exists EmptyString. split; reflexivity.
Qed.

Lemma str_rstrip_split f s :
  exists post, s = str_rstrip f s +:+ post /\ str_all f post = true.
Proof.
  induction s as [|b s (post & Hs & Hpost)]; simpl.
  - exists EmptyString. split; reflexivity.
  - destruct (str_rstrip f s) as [|c rest] eqn:Hr.
    + destruct (f b) eqn:Hb.
      * exists (String b post). split.
        -- change (String b s = String b post). f_equal. exact Hs.
        -- simpl. rewrite Hb. exact Hpost.
      * exists post. split; [|assumption].
        change (String b s = String b post). f_equal. exact Hs.
    + exists post. split; [|assumption].
      change (String b (String c rest) +:+ post)
        with (String b (String c rest +:+ post)).
      f_equal. exact Hs.
Qed.

Lemma str_lstrip_all f s : str_all f s = true -> str_lstrip f s = EmptyString.
Proof.
  induction s as [|b s IH]; simpl; [reflexivity|].
  intros H. apply andb_true_iff in H as [Hb Hs]. rewrite Hb. apply IH, Hs.
Qed.

Lemma str_strip_fixed f s : str_strip f (str_strip f s) = str_strip f s.
Proof.
  unfold str_strip.
  rewrite (str_lstrip_fixed f (str_rstrip f (str_lstrip f s))).
  - apply str_rstrip_fixed. intros a. apply str_rstrip_last.
  - intros a Ha. apply str_rstrip_first in Ha.
    eapply str_lstrip_first. exact Ha.
Qed.

Lemma one_of_concat is_space lists :
  one_of is_space lists
  = map (str_strip is_space) (concat (map (default []) lists)).
Proof.
  unfold one_of. induction lists as [|l lists IH]; simpl; [reflexivity|].
  rewrite map_app, IH. destruct l; reflexivity.
Qed.

Lemma one_of_elem is_space lists e :
  e ∈ one_of is_space lists ->
  exists s, e = str_strip is_space s.
Proof.
  rewrite one_of_concat. intros He.
  apply list_elem_of_In, in_map_iff in He as (s & <- & _). eauto.
Qed.

(** X8. Every entry [one_of] returns is stripped: it neither starts nor
    ends with a white-space character, and stripping it again changes
    nothing. *)
Theorem one_of_entries_stripped is_space lists e :
  e ∈ one_of is_space lists ->
  str_strip is_space e = e
  /\ (forall a, str_first e = Some a -> is_space a = false)
  /\ (forall a, str_last e = Some a -> is_space a = false).
Proof.
  intros He. apply one_of_elem in He as [s ->].
  split; [apply str_strip_fixed|]. split.
  - intros a Ha. unfold str_strip in Ha. apply str_rstrip_first in Ha.
    eapply str_lstrip_first. exact Ha.
  - intros a. apply str_rstrip_last.
Qed.

Lemma one_of_witness_entries :
  one_of Ascii.is_space [Some [" 40796308305"; "x y "]; None; Some ["7"]]
  = ["40796308305"; "x y"; "7"].
Proof. reflexivity. Qed.

Lemma one_of_entries_stripped_witness :
  str_strip Ascii.is_space "x y" = "x y"
  /\ (forall a, str_first "x y" = Some a -> Ascii.is_space a = false)
  /\ (forall a, str_last "x y" = Some a -> Ascii.is_space a = false).
Proof.
  apply (one_of_entries_stripped Ascii.is_space
           [Some [" 40796308305"; "x y "]; None; Some ["7"]] "x y").
  rewrite one_of_witness_entries. apply list_elem_of_In. simpl. tauto.
Defined.

(** X9. [one_of] keeps every entry of its lists, in order, the lists that
    are [None] counting for nothing: entry [i] of the result is entry [i] of
    the concatenated lists with only white space removed at both ends.
    Nothing is dropped or merged, so a blank entry gives an empty one and
    duplicates stay. *)
Theorem one_of_keeps_everything is_space lists :
  length (one_of is_space lists) = length (concat (map (default []) lists))
  /\ (forall i s,
        concat (map (default []) lists) !! i = Some s ->
        exists e pre post,
          one_of is_space lists !! i = Some e
          /\ s = pre +:+ e +:+ post
          /\ str_all is_space pre = true
          /\ str_all is_space post = true
          /\ (str_all is_space s = true -> e = EmptyString)).
Proof.
  rewrite one_of_concat. split; [apply length_map|].
  intros i s Hs. exists (str_strip is_space s).
  destruct (str_lstrip_split is_space s) as (pre & Hpre & Hall).
  destruct (str_rstrip_split is_space (str_lstrip is_space s))
    as (post & Hpost & Hall').
  exists pre, post.
  split; [rewrite list_lookup_fmap, Hs; reflexivity|].
  split; [unfold str_strip; rewrite <- Hpost; exact Hpre|].
  split; [assumption|]. split; [assumption|].
  intros Hblank. unfold str_strip.
  rewrite (str_lstrip_all _ _ Hblank). reflexivity.
Qed.

Lemma one_of_keeps_everything_witness :
  exists e pre post,
    one_of Ascii.is_space [Some ["7"; "   "]; None; Some ["7"]] !! 1%nat = Some e
    /\ "   " = pre +:+ e +:+ post
    /\ str_all Ascii.is_space pre = true
    /\ str_all Ascii.is_space post = true
    /\ (str_all Ascii.is_space "   " = true -> e = EmptyString).
Proof.
  apply (proj2 (one_of_keeps_everything Ascii.is_space
                  [Some ["7"; "   "]; None; Some ["7"]]) 1%nat "   ").
  reflexivity.
Defined.

(** X10. The object URL is the base without its trailing slashes, then
    [/], the object, [/] and the endpoint name: only slashes are taken off
    the base, and what is left does not end in one. *)
Theorem object_url_shape base obj endpoint_name :
  exists b slashes,
    base = b +:+ slashes
    /\ str_all is_slash slashes = true
    /\ (forall a, str_last b = Some a -> a <> "/"%char)
    /\ object_url base obj endpoint_name
       = b +:+ String "/"%char (obj +:+ String "/"%char endpoint_name).
Proof.
  destruct (str_rstrip_split is_slash base) as (post & Hbase & Hall).
  exists (str_rstrip is_slash base), post.
  split; [assumption|]. split; [assumption|]. split; [|reflexivity].
  intros a Ha. apply str_rstrip_last in Ha. unfold is_slash in Ha.
  apply bool_decide_eq_false in Ha. exact Ha.
Qed.

(** ** The driver *)

Lemma gen_next_view server endpoint cursor_key cursor_extractor ramp_up
    g m e g' m' :
  gen_next server endpoint cursor_key cursor_extractor ramp_up g m
  = Yielded e g' m' ->
  exists d,
    sent m' = sent m ++ [(endpoint, d)]
    /\ view m' e
       = {| s_content := parse_response (server (sent m) endpoint d);
            s_status := status_code (server (sent m) endpoint d);
            s_endpoint := endpoint;
            s_parameters := d |}.
Proof.
  destruct g as [parameters tokens|params queue content|]; cbn [gen_next copy_dict].
  - destruct tokens as [|tok queue]; [discriminate|].
    rewrite request_cons. cbv zeta. rewrite read_write_eq.
    intros [= <- <- <-].
    exists (<["access_token" := tok]> (read m parameters)).
    split; [reflexivity|].
    unfold view. simpl. f_equal.
    unfold read. simpl. apply lookup_total_insert_eq.
  - destruct (after_yield cursor_key cursor_extractor ramp_up params queue content m)
      as [q m1|m1|x m1] eqn:Hres; [|discriminate..].
    apply after_yield_Continue in Hres
      as (_ & _ & tok & _ & _ & _ & _ & _ & -> & Hsent & _).
    destruct (queue ++ [tok]) as [|t q'] eqn:Hq.
    { destruct queue; discriminate Hq. }
    rewrite request_cons. cbv zeta. intros [= <- <- <-].
    exists (<["access_token" := t]> (read m1 params)).
    rewrite <- Hsent. split; [reflexivity|].
    unfold view. simpl. f_equal.
    unfold read. simpl. apply lookup_total_insert_eq.
  - discriminate.
Qed.

Lemma gen_next_quiet server endpoint cursor_key cursor_extractor ramp_up g m m' :
  (gen_next server endpoint cursor_key cursor_extractor ramp_up g m
   = StopIteration m'
   \/ exists x, gen_next server endpoint cursor_key cursor_extractor ramp_up g m
                = Raised x m') ->
  sent m' = sent m.
Proof.
  destruct g as [parameters tokens|params queue content|]; cbn [gen_next copy_dict].
  - destruct tokens as [|tok queue].
    + simpl. intros [H|[x H]]; [discriminate H|].
      injection H as _ <-. reflexivity.
    + rewrite request_cons. intros [H|[x H]]; discriminate H.
  - destruct (after_yield cursor_key cursor_extractor ramp_up params queue content m)
      as [q m1|m1|x m1] eqn:Hres.
    + apply after_yield_Continue in Hres
        as (_ & _ & tok & _ & _ & _ & _ & _ & -> & Hsent & _).
      destruct (queue ++ [tok]) as [|t q'] eqn:Hq.
      { destruct queue; discriminate Hq. }
      rewrite request_cons. intros [H|[x H]]; discriminate H.
    + apply after_yield_Break in Hres as ->.
      intros [H|[x H]]; [injection H as <-; reflexivity|discriminate H].
    + apply after_yield_Throw in Hres as [Hsent _].
      intros [H|[y H]]; [discriminate H|injection H as _ <-; exact Hsent].
  - intros [H|[x H]]; [injection H as <-; reflexivity|discriminate H].
Qed.

Lemma write_file_Some path data overwrite files files' :
  write_file path data overwrite files = Some files' ->
  files' = <[path := data]> files
  /\ (overwrite = false -> files !! path = None).
Proof.
  unfold write_file.
  destruct (overwrite || negb (bool_decide (is_Some (files !! path)))) eqn:Hok;
    [|discriminate].
  intros [= <-]. split; [reflexivity|].
  intros ->. simpl in Hok. apply negb_true_iff, bool_decide_eq_false in Hok.
  destruct (files !! path) eqn:Hp; [|reflexivity].
  exfalso. apply Hok. eauto.
Qed.

Lemma drive_front server endpoint cursor_key cursor_extractor ramp_up
    g m e g1 m1 n es gf mf :
  gen_next server endpoint cursor_key cursor_extractor ramp_up g m
  = Yielded e g1 m1 ->
  drive server endpoint cursor_key cursor_extractor ramp_up n g1 m1
  = (es, gf, mf) ->
  drive server endpoint cursor_key cursor_extractor ramp_up (S n) g m
  = (e :: es, gf, mf).
Proof.
  intros Hstep. revert es gf mf. induction n as [|n IH]; intros es gf mf.
  - simpl. intros [= <- <- <-]. rewrite Hstep. reflexivity.
  - cbn [drive].
    destruct (drive server endpoint cursor_key cursor_extractor ramp_up n g1 m1)
      as [[es' g'] m'] eqn:Hn.
    cbn [drive] in IH. rewrite (IH es' g' m' eq_refl).
    destruct (gen_next server endpoint cursor_key cursor_extractor ramp_up g' m');
      intros [= <- <- <-]; reflexivity.
Qed.

Lemma drive_front_end server endpoint cursor_key cursor_extractor ramp_up
    g m m1 :
  (gen_next server endpoint cursor_key cursor_extractor ramp_up g m
   = StopIteration m1
   \/ exists x, gen_next server endpoint cursor_key cursor_extractor ramp_up g m
                = Raised x m1) ->
  drive server endpoint cursor_key cursor_extractor ramp_up 1 g m
  = ([], Finished, m1).
Proof.
  simpl. intros [->|[x ->]]; reflexivity.
Qed.

Section DriverFacts.
Variable server :
  list (string * gmap string value) -> string -> gmap string value -> response.
Variable file_name : string -> nat -> result string.
Variable serialize : snapshot -> result string.
Variable overwrite : bool.
Variable verbose : bool.
Variable base_url : string.
Variable endpoint_name : string.
Variable pager : paginator.
Variable ramp_up : value -> result value.
Variable params : loc.
Variable tokens : list value.

Abbreviation url_of obj := (object_url base_url obj endpoint_name).
Abbreviation step obj :=
  (gen_next server (object_url base_url obj endpoint_name)
            (p_key pager) (p_extractor pager) ramp_up).
Abbreviation pages :=
  (process_pages server file_name serialize overwrite verbose
                 base_url endpoint_name pager ramp_up).
Abbreviation objects_loop :=
  (process_objects server file_name serialize overwrite verbose
                   base_url endpoint_name pager ramp_up params tokens).
Abbreviation note := (progress verbose).

Lemma progress_machine w ev : w_machine (note w ev) = w_machine w.
Proof. unfold progress. destruct verbose; reflexivity. Qed.

Lemma progress_files w ev : w_files (note w ev) = w_files w.
Proof. unfold progress. destruct verbose; reflexivity. Qed.

(** The ways one turn of the page loop can go. *)
Lemma pages_unfold fuel obj i count g w st w' :
  pages (S fuel) obj i count g w = (st, w') ->
  (exists m', (step obj g (w_machine w) = StopIteration m'
               \/ exists x, step obj g (w_machine w) = Raised x m')
              /\ w' = with_machine w m' /\ st <> OutOfFuel)
  \/ exists e g' m',
       step obj g (w_machine w) = Yielded e g' m'
       /\ ((w' = with_machine w m' /\ st <> OutOfFuel)
           \/ exists path data files,
                file_name obj i = Ok path
                /\ serialize (view m' e) = Ok data
                /\ write_file path data overwrite (w_files w) = Some files
                /\ ((w' = with_files (with_machine w m') files
                     /\ st <> OutOfFuel)
                    \/ exists n,
                         pages fuel obj (S i) (count + n) g'
                               (note (with_files (with_machine w m') files)
                                     (Report obj (count + n)))
                         = (st, w'))).
Proof.
  cbn [process_pages].
  destruct (step obj g (w_machine w)) as [e g' m'|m'|x m'] eqn:Hstep.
  - intros H. right. exists e, g', m'. split; [reflexivity|].
    destruct (file_name obj i) as [path|x];
      [|injection H as <- <-; left; split; [reflexivity|discriminate]].
    destruct (serialize (view m' e)) as [data|x];
      [|injection H as <- <-; left; split; [reflexivity|discriminate]].
    simpl w_files in H.
    destruct (write_file path data overwrite (w_files w)) as [files|] eqn:Hw;
      [|injection H as <- <-; left; split; [reflexivity|discriminate]].
    right. exists path, data, files. do 2 (split; [reflexivity|]).
    split; [exact Hw|].
    destruct (_ ← py_get (e_content e) "data" (VList []); py_len _) as [n|x].
    + right. exists n. exact H.
    + injection H as <- <-. left. split; [reflexivity|discriminate].
  - intros [= <- <-]. left. exists m'.
    split; [left; reflexivity|]. split; [reflexivity|discriminate].
  - intros [= <- <-]. left. exists m'.
    split; [right; exists x; reflexivity|]. split; [reflexivity|discriminate].
Qed.

Lemma pages_sent fuel obj i count g w st w' :
  pages fuel obj i count g w = (st, w') ->
  exists more,
    sent (w_machine w') = sent (w_machine w) ++ more
    /\ Forall (fun r => r.1 = url_of obj) more.
Proof.
  revert i count g w. induction fuel as [|fuel IH]; intros i count g w H.
  - injection H as _ <-. exists []. split; [symmetry; apply app_nil_r|constructor].
  - apply pages_unfold in H
      as [(m' & Hq & -> & _)|(e & g' & m' & Hstep & Hrest)].
    + exists []. simpl. rewrite (gen_next_quiet _ _ _ _ _ _ _ _ Hq).
      split; [symmetry; apply app_nil_r|constructor].
    + apply gen_next_view in Hstep as (d & Hsent & _).
      destruct Hrest
        as [[-> _]|(path & data & files & _ & _ & _ & [[-> _]|(n & Hn)])].
      * exists [(url_of obj, d)]. split; [exact Hsent|repeat constructor].
      * exists [(url_of obj, d)]. split; [exact Hsent|repeat constructor].
      * apply IH in Hn as (more & Hmore & Hall).
        rewrite progress_machine in Hmore. simpl in Hmore.
        exists ((url_of obj, d) :: more).
        split; [|constructor; [reflexivity|assumption]].
        rewrite Hmore, Hsent, <- app_assoc. reflexivity.
Qed.

Lemma pages_keep_files fuel obj i count g w st w' path data :
  overwrite = false ->
  pages fuel obj i count g w = (st, w') ->
  w_files w !! path = Some data ->
  w_files w' !! path = Some data.
Proof.
  intros Hov. revert i count g w.
  induction fuel as [|fuel IH]; intros i count g w H Hold.
  - injection H as _ <-. exact Hold.
  - apply pages_unfold in H
      as [(m' & _ & -> & _)|(e & g' & m' & _ & Hrest)]; [exact Hold|].
    destruct Hrest as [[-> _]|(p & dt & files & _ & _ & Hw & Hrest)];
      [exact Hold|].
    apply write_file_Some in Hw as [-> Hnew]. specialize (Hnew Hov).
    assert (Hkept : <[p := dt]> (w_files w) !! path = Some data).
    { rewrite lookup_insert_ne by congruence. exact Hold. }
    destruct Hrest as [[-> _]|(n & Hn)]; [exact Hkept|].
    eapply IH; [exact Hn|]. rewrite progress_files. exact Hkept.
Qed.
Lemma pages_new_files fuel obj i count g w st w' path data :
  pages fuel obj i count g w = (st, w') ->
  w_files w' !! path = Some data ->
  w_files w !! path <> Some data ->
  exists k hist d later,
    file_name obj k = Ok path
    /\ (exists pre, hist = sent (w_machine w) ++ pre)
    /\ sent (w_machine w') = hist ++ (url_of obj, d) :: later
    /\ serialize
         {| s_content := parse_response (server hist (url_of obj) d);
            s_status := status_code (server hist (url_of obj) d);
            s_endpoint := url_of obj;
            s_parameters := d |} = Ok data.
Proof.
  revert i count g w. induction fuel as [|fuel IH]; intros i count g w H Hnow Hold.
  - injection H as _ <-. contradiction.
  - apply pages_unfold in H
      as [(m' & _ & -> & _)|(e & g' & m' & Hstep & Hrest)]; [contradiction|].
    destruct Hrest as [[-> _]|(p & dt & files & Hname & Hser & Hw & Hrest)];
      [contradiction|].
    apply write_file_Some in Hw as [-> _].
    apply gen_next_view in Hstep as (d & Hsent & Hview).
    rewrite Hview in Hser.
    assert (Hthis : <[p := dt]> (w_files w) !! path = Some data ->
                    path = p /\ data = dt).
    { intros Hl. destruct (decide (p = path)) as [<-|Hne].
      - rewrite lookup_insert_eq in Hl. injection Hl as <-. split; reflexivity.
      - rewrite lookup_insert_ne in Hl by assumption. contradiction. }
    destruct Hrest as [[-> _]|(n & Hn)].
    + destruct (Hthis Hnow) as [-> ->].
      exists i, (sent (w_machine w)), d, [].
      split; [assumption|].
      split; [exists []; symmetry; apply app_nil_r|].
      split; [exact Hsent|exact Hser].
    + destruct (decide (<[p := dt]> (w_files w) !! path = Some data))
        as [Hl|Hl].
      * destruct (Hthis Hl) as [-> ->].
        apply pages_sent in Hn as (more & Hmore & _).
        rewrite progress_machine in Hmore. simpl in Hmore.
        exists i, (sent (w_machine w)), d, more.
        split; [assumption|].
        split; [exists []; symmetry; apply app_nil_r|].
        split; [|exact Hser].
        rewrite Hmore, Hsent, <- app_assoc. reflexivity.
      * apply IH in Hn as (k & hist & d' & later & Hk & (pre & Hpre) & Hs & Hd');
          [|assumption|rewrite progress_files; exact Hl].
        rewrite progress_machine in Hpre. simpl in Hpre.
        exists k, hist, d', later.
        split; [assumption|].
        split; [exists ((url_of obj, d) :: pre);
                rewrite Hpre, Hsent, <- app_assoc; reflexivity|].
        split; assumption.
Qed.

Lemma pages_as_drive fuel obj i count g w st w' :
  pages fuel obj i count g w = (st, w') ->
  exists n es g',
    drive server (url_of obj) (p_key pager) (p_extractor pager) ramp_up
          n g (w_machine w) = (es, g', w_machine w').
Proof.
  revert i count g w. induction fuel as [|fuel IH]; intros i count g w H.
  - injection H as _ <-. exists 0%nat, [], g. reflexivity.
  - apply pages_unfold in H
      as [(m' & Hq & -> & _)|(e & g' & m' & Hstep & Hrest)].
    + exists 1%nat, [], Finished. apply drive_front_end. exact Hq.
    + destruct Hrest
        as [[-> _]|(p & dt & files & _ & _ & _ & [[-> _]|(n & Hn)])].
      * exists 1%nat, [e], g'. eapply drive_front; [exact Hstep|reflexivity].
      * exists 1%nat, [e], g'. eapply drive_front; [exact Hstep|reflexivity].
      * apply IH in Hn as (k & es & gf & Hk).
        rewrite progress_machine in Hk. simpl in Hk.
        exists (S k), (e :: es), gf. eapply drive_front; eassumption.
Qed.

(** The loop over one object's pages leaves the shared parameter mapping as
    it found it. *)
Lemma pages_frame fuel obj i count w st w' :
  is_Some (heap (w_machine w) !! params) ->
  pages fuel obj i count (paginate params tokens) w = (st, w') ->
  heap (w_machine w') !! params = heap (w_machine w) !! params.
Proof.
  intros Halloc H. apply pages_as_drive in H as (n & es & g' & Hn).
  destruct n as [|n].
  - injection Hn as _ _ <-. reflexivity.
  - apply run_invariant in Hn as [Hframe _ _ _].
    apply Hframe. intros Heq.
    apply (is_fresh (dom (heap (w_machine w)))). rewrite <- Heq.
    apply elem_of_dom, Halloc.
Qed.


Lemma objects_sent fuel objs w st w' :
  objects_loop fuel objs w = (st, w') ->
  exists more, sent (w_machine w') = sent (w_machine w) ++ more.
Proof.
  revert w. induction objs as [|obj rest IH]; intros w; cbn [process_objects].
  - intros [= _ <-]. exists []. symmetry. apply app_nil_r.
  - destruct (pages fuel obj 1%nat 0%nat (paginate params tokens) w)
      as [st1 w1] eqn:Hp.
    apply pages_sent in Hp as (more1 & Hmore1 & _).
    destruct st1; try (intros [= _ <-]; eauto).
    intros H. apply IH in H as (more2 & Hmore2).
    rewrite progress_machine in Hmore2.
    exists (more1 ++ more2). rewrite Hmore2, Hmore1, <- app_assoc. reflexivity.
Qed.

Lemma objects_keep_files fuel objs w st w' path data :
  overwrite = false ->
  objects_loop fuel objs w = (st, w') ->
  w_files w !! path = Some data ->
  w_files w' !! path = Some data.
Proof.
  intros Hov. revert w. induction objs as [|obj rest IH]; intros w;
    cbn [process_objects].
  - intros [= _ <-] Hold. exact Hold.
  - destruct (pages fuel obj 1%nat 0%nat (paginate params tokens) w)
      as [st1 w1] eqn:Hp.
    intros H Hold.
    pose proof (pages_keep_files _ _ _ _ _ _ _ _ path data Hov Hp Hold) as H1.
    destruct st1; try (injection H as _ <-; exact H1).
    eapply IH; [exact H|]. rewrite progress_files. exact H1.
Qed.

Lemma objects_new_files fuel objs w st w' path data :
  objects_loop fuel objs w = (st, w') ->
  w_files w' !! path = Some data ->
  w_files w !! path <> Some data ->
  exists obj k hist d later,
    obj ∈ objs
    /\ file_name obj k = Ok path
    /\ (exists pre, hist = sent (w_machine w) ++ pre)
    /\ sent (w_machine w') = hist ++ (url_of obj, d) :: later
    /\ serialize
         {| s_content := parse_response (server hist (url_of obj) d);
            s_status := status_code (server hist (url_of obj) d);
            s_endpoint := url_of obj;
            s_parameters := d |} = Ok data.
Proof.
  revert w. induction objs as [|obj rest IH]; intros w; cbn [process_objects].
  - intros [= _ <-] Hnow Hold. contradiction.
  - destruct (pages fuel obj 1%nat 0%nat (paginate params tokens) w)
      as [st1 w1] eqn:Hp.
    intros H Hnow Hold.
    assert (Hhere : w_files w1 !! path = Some data ->
              forall more, sent (w_machine w') = sent (w_machine w1) ++ more ->
              exists obj0 k hist d later,
                obj0 ∈ obj :: rest
                /\ file_name obj0 k = Ok path
                /\ (exists pre, hist = sent (w_machine w) ++ pre)
                /\ sent (w_machine w') = hist ++ (url_of obj0, d) :: later
                /\ serialize
                     {| s_content := parse_response (server hist (url_of obj0) d);
                        s_status := status_code (server hist (url_of obj0) d);
                        s_endpoint := url_of obj0;
                        s_parameters := d |} = Ok data).
    { intros H1 more Hmore.
      destruct (pages_new_files _ _ _ _ _ _ _ _ _ _ Hp H1 Hold)
        as (k & hist & d & later & Hk & Hpre & Hs & Hd).
      exists obj, k, hist, d, (later ++ more).
      split; [apply list_elem_of_here|]. split; [assumption|].
      split; [assumption|]. split; [|assumption].
      rewrite Hmore, Hs, <- app_assoc. reflexivity. }
    destruct st1;
      try (injection H as _ <-; apply (Hhere Hnow []);
           symmetry; apply app_nil_r).
    destruct (decide (w_files w1 !! path = Some data)) as [H1|H1].
    + apply objects_sent in H as (more & Hmore).
      rewrite progress_machine in Hmore. eapply Hhere; eassumption.
    + apply pages_sent in Hp as (more1 & Hmore1 & _).
      apply IH in H
        as (obj0 & k & hist & d & later & Hin & Hk & (pre & Hpre) & Hs & Hd);
        [|assumption|rewrite progress_files; exact H1].
      rewrite progress_machine in Hpre.
      exists obj0, k, hist, d, later.
      split; [apply list_elem_of_further; assumption|]. split; [assumption|].
      split; [exists (more1 ++ pre); rewrite Hpre, Hmore1, <- app_assoc;
              reflexivity|].
      split; assumption.
Qed.
Lemma pages_first fuel obj w st w' tok0 rest :
  tokens = tok0 :: rest ->
  pages (S fuel) obj 1%nat 0%nat (paginate params tokens) w = (st, w') ->
  exists more,
    sent (w_machine w')
    = sent (w_machine w)
      ++ (url_of obj, <["access_token" := tok0]> (read (w_machine w) params))
         :: more
    /\ Forall (fun r => r.1 = url_of obj) more.
Proof.
  intros -> H.
  assert (Hstep : forall e g' m',
            step obj (paginate params (tok0 :: rest)) (w_machine w)
            = Yielded e g' m' ->
            sent m' = sent (w_machine w)
                      ++ [(url_of obj,
                           <["access_token" := tok0]> (read (w_machine w) params))]).
  { intros e g' m'. unfold paginate. cbn [gen_next copy_dict].
    rewrite request_cons. cbv zeta. rewrite read_write_eq.
    intros [= _ _ <-]. reflexivity. }
  apply pages_unfold in H
    as [(m' & Hq & _)|(e & g' & m' & Hy & Hrest)].
  - exfalso. unfold paginate in Hq. cbn [gen_next copy_dict] in Hq.
    rewrite request_cons in Hq. destruct Hq as [Hq|[x Hq]]; discriminate Hq.
  - apply Hstep in Hy.
    destruct Hrest
      as [[-> _]|(p & dt & files & _ & _ & _ & [[-> _]|(n & Hn)])].
    + exists []. split; [exact Hy|constructor].
    + exists []. split; [exact Hy|constructor].
    + apply pages_sent in Hn as (more & Hmore & Hall).
      rewrite progress_machine in Hmore. simpl in Hmore.
      exists more. split; [|assumption].
      rewrite Hmore, Hy, <- app_assoc. reflexivity.
Qed.

(** The requests of the loop are those of its objects, in order; the first
    one for each object carries the shared mapping as it was before the
    loop, with the first credential. *)
Lemma objects_fresh fuel objs w st w' tok0 rest :
  tokens = tok0 :: rest ->
  is_Some (heap (w_machine w) !! params) ->
  objects_loop fuel objs w = (st, w') ->
  exists runs : list (list (string * gmap string value)),
    sent (w_machine w') = sent (w_machine w) ++ concat runs
    /\ (length runs <= length objs)%nat
    /\ (st = Completed -> length runs = length objs)
    /\ heap (w_machine w') !! params = heap (w_machine w) !! params
    /\ forall i obj reqs,
         objs !! i = Some obj -> runs !! i = Some reqs ->
         Forall (fun r => r.1 = url_of obj) reqs
         /\ exists more,
              reqs = (url_of obj,
                      <["access_token" := tok0]> (read (w_machine w) params))
                     :: more.
Proof.
  intros Htok. revert w.
  induction objs as [|obj others IH]; intros w Halloc; cbn [process_objects].
  - intros [= _ <-]. exists [].
    split; [symmetry; apply app_nil_r|]. split; [reflexivity|].
    split; [reflexivity|]. split; [reflexivity|].
    intros i obj reqs H. discriminate H.
  - destruct (pages fuel obj 1%nat 0%nat (paginate params tokens) w)
      as [st1 w1] eqn:Hp.
    destruct fuel as [|fuel].
    { injection Hp as <- <-. intros [= <- <-]. exists [].
      split; [symmetry; apply app_nil_r|]. split; [simpl; lia|].
      split; [discriminate|]. split; [reflexivity|].
      intros i o reqs _ H. discriminate H. }
    pose proof (pages_frame _ _ _ _ _ _ _ Halloc Hp) as Hframe.
    destruct (pages_first _ _ _ _ _ _ _ Htok Hp) as (more & Hsent & Hall).
    set (first := (url_of obj,
                   <["access_token" := tok0]> (read (w_machine w) params))) in *.
    assert (Hone : forall i o reqs,
              (obj :: others) !! i = Some o -> [first :: more] !! i = Some reqs ->
              Forall (fun r => r.1 = url_of o) reqs
              /\ exists more0, reqs = (url_of o,
                      <["access_token" := tok0]> (read (w_machine w) params))
                     :: more0).
    { intros [|i] o reqs Ho Hr; [|destruct i; discriminate Hr].
      injection Ho as <-. injection Hr as <-.
      split; [constructor; [reflexivity|assumption]|]. exists more. reflexivity. }
    assert (Hstop : st1 <> Completed -> forall st0 w0,
              (st1, w1) = (st0, w0) ->
              exists runs : list (list (string * gmap string value)),
                sent (w_machine w0) = sent (w_machine w) ++ concat runs
                /\ (length runs <= length (obj :: others))%nat
                /\ (st0 = Completed -> length runs = length (obj :: others))
                /\ heap (w_machine w0) !! params = heap (w_machine w) !! params
                /\ forall i o reqs,
                     (obj :: others) !! i = Some o -> runs !! i = Some reqs ->
                     Forall (fun r => r.1 = url_of o) reqs
                     /\ exists more0, reqs = (url_of o,
                            <["access_token" := tok0]>
                              (read (w_machine w) params)) :: more0).
    { intros Hne st0 w0 [= <- <-]. exists [first :: more].
      split; [simpl; rewrite app_nil_r; exact Hsent|].
      split; [simpl; lia|]. split; [intros; contradiction|].
      split; [exact Hframe|exact Hone]. }
    destruct st1; [|apply Hstop; discriminate..].
    clear Hstop. intros H.
    assert (Halloc1 : is_Some (heap (w_machine (note w1 EndOfObject)) !! params)).
    { rewrite progress_machine, Hframe. exact Halloc. }
    destruct (IH _ Halloc1 H) as (runs & Hs & Hlen & Hdone & Hfr & Hruns).
    rewrite progress_machine in Hs, Hfr, Hruns.
    assert (Hread : read (w_machine w1) params = read (w_machine w) params).
    { unfold read. rewrite !lookup_total_alt, Hframe. reflexivity. }
    rewrite Hread in Hruns.
    exists ((first :: more) :: runs).
    split.
    { rewrite Hs, Hsent. simpl. rewrite <- app_assoc. reflexivity. }
    split; [simpl; lia|].
    split; [intros Hc; simpl; rewrite (Hdone Hc); reflexivity|].
    split; [rewrite Hfr; exact Hframe|].
    intros [|i] o reqs Ho Hr.
    + apply (Hone 0%nat o reqs Ho). exact Hr.
    + apply (Hruns i o reqs Ho Hr).
Qed.
End DriverFacts.

(** ** The prepared parameters *)

Lemma update_pairs_last (pairs1 pairs2 : list (string * string)) d k v :
  k ∉ pairs2.*1 ->
  update_pairs d (pairs1 ++ (k, v) :: pairs2) !! k = Some (VStr v).
Proof.
  intros Hk. unfold update_pairs. rewrite foldl_app. simpl.
  generalize (foldl (fun acc kv => <[kv.1 := VStr kv.2]> acc) d pairs1).
  intros acc.
  assert (Hacc : <[k := VStr v]> acc !! k = Some (VStr v))
    by apply lookup_insert_eq.
  revert Hacc. generalize (<[k := VStr v]> acc). clear acc.
  induction pairs2 as [|[k' v'] rest IH]; intros acc Hacc; simpl; [assumption|].
  apply IH.
  - intros Hin. apply Hk. simpl. apply list_elem_of_further. assumption.
  - rewrite lookup_insert_ne; [assumption|].
    intros ->. apply Hk. simpl. apply list_elem_of_here.
Qed.

Lemma update_pairs_other (pairs : list (string * string)) d k :
  k ∉ pairs.*1 -> update_pairs d pairs !! k = d !! k.
Proof.
  unfold update_pairs. revert d.
  induction pairs as [|[k' v'] rest IH]; intros d Hk; simpl; [reflexivity|].
  rewrite IH.
  - apply lookup_insert_ne. intros ->. apply Hk. simpl. apply list_elem_of_here.
  - intros Hin. apply Hk. simpl. apply list_elem_of_further. assumption.
Qed.

Lemma prepare_parameters_read lp q limit m :
  read (prepare_parameters lp q limit m) lp
  = <["limit" := VInt limit]> (update_pairs (read m lp) (default [] q)).
Proof.
  unfold prepare_parameters. rewrite read_write_eq.
  destruct q as [[|kv rest]|]; try reflexivity.
  rewrite read_write_eq. reflexivity.
Qed.

Lemma prepare_parameters_sent lp q limit m :
  sent (prepare_parameters lp q limit m) = sent m.
Proof.
  unfold prepare_parameters. destruct q as [[|kv rest]|]; reflexivity.
Qed.

(** X13. The parameters [process] prepares for an endpoint: the limit is the
    limit option whatever the query parameters say; any other key given as a
    query parameter has the value of its last occurrence, as a string; keys
    not given keep the endpoint's defaults; the mapping is changed in place
    and no other object is. *)
Theorem prepared_parameters lp q limit m :
  read (prepare_parameters lp q limit m) lp !! "limit" = Some (VInt limit)
  /\ (forall pairs1 pairs2 k v,
        q = Some (pairs1 ++ (k, v) :: pairs2) ->
        k ∉ pairs2.*1 -> k <> "limit" ->
        read (prepare_parameters lp q limit m) lp !! k = Some (VStr v))
  /\ (forall k,
        k ∉ (default [] q).*1 -> k <> "limit" ->
        read (prepare_parameters lp q limit m) lp !! k = read m lp !! k)
  /\ (forall l, l <> lp ->
        heap (prepare_parameters lp q limit m) !! l = heap m !! l).
Proof.
  rewrite prepare_parameters_read.
  split; [apply lookup_insert_eq|]. split; [|split].
  - intros pairs1 pairs2 k v -> Hk Hl. simpl.
    rewrite lookup_insert_ne by congruence. apply update_pairs_last, Hk.
  - intros k Hk Hl. rewrite lookup_insert_ne by congruence.
    apply update_pairs_other, Hk.
  - intros l Hl. unfold prepare_parameters.
    rewrite heap_write_ne by congruence.
    destruct q as [[|kv rest]|]; try reflexivity.
    apply heap_write_ne. congruence.
Qed.

Lemma prepared_parameters_witness :
  read (prepare_parameters 0%nat (o_query_parameters likes_options) 25
          caller_machine) 0%nat !! "fields" = Some (VStr "name")
  /\ read (prepare_parameters 0%nat (o_query_parameters likes_options) 25
             caller_machine) 0%nat !! "summary" = Some (VInt 1)
  /\ read (prepare_parameters 0%nat (o_query_parameters likes_options) 25
             caller_machine) 0%nat !! "limit" = Some (VInt 25).
Proof.
  destruct (prepared_parameters 0%nat (o_query_parameters likes_options) 25
              caller_machine) as (Hlimit & Hlast & Hkeep & _).
  split; [|split].
  - apply (Hlast [("limit", "7"); ("fields", "id")] [] "fields" "name").
    + reflexivity.
    + intros H. inversion H.
    + discriminate.
  - rewrite Hkeep; [reflexivity| |discriminate].
    intros H. apply list_elem_of_In in H. simpl in H.
    destruct H as [H|[H|[H|[]]]]; discriminate H.
  - exact Hlimit.
Defined.

(** ** The whole of [process] *)

(** X14. Without the overwrite option [process] never changes a file that
    was there before: however the run goes (to the end, into a failure, or
    still under way), every path that held something holds the same. *)
Theorem process_keeps_existing_files
    is_space server file_name serialize fuel opts endpoints parameters
    w st w' path data :
  o_overwrite opts = false ->
  process is_space server file_name serialize fuel opts endpoints parameters w
  = (st, w') ->
  w_files w !! path = Some data ->
  w_files w' !! path = Some data.
Proof.
  intros Hov. unfold process.
  destruct (parameters !! o_endpoint opts) as [lp|];
    [|intros [= _ <-] H; exact H].
  destruct (endpoints !! o_endpoint opts) as [pager|];
    [|intros [= _ <-] H; exact H].
  intros H Hold. rewrite Hov in H.
  eapply objects_keep_files; [reflexivity|exact H|exact Hold].
Qed.

(** X15. Every file [process] writes or rewrites holds the serialization of
    one page as it stood when it was yielded: the reply to one request sent
    during this call for one of the objects, with that request's own
    parameters, written under the name of that object and a page index.
    The pages are serialized before the generator is resumed, so the
    sharing of the parameter mapping between envelopes does not show in the
    files. *)
Theorem process_files_are_pages
    is_space server file_name serialize fuel opts endpoints parameters
    w st w' path data :
  process is_space server file_name serialize fuel opts endpoints parameters w
  = (st, w') ->
  w_files w' !! path = Some data ->
  w_files w !! path <> Some data ->
  exists obj k hist d later,
    obj ∈ one_of is_space [o_objects opts; o_objects_file opts]
    /\ file_name obj k = Ok path
    /\ (exists pre, hist = sent (w_machine w) ++ pre)
    /\ sent (w_machine w')
       = hist ++ (object_url (o_url opts) obj (o_endpoint opts), d) :: later
    /\ serialize
         {| s_content :=
              parse_response
                (server hist (object_url (o_url opts) obj (o_endpoint opts)) d);
            s_status :=
              status_code
                (server hist (object_url (o_url opts) obj (o_endpoint opts)) d);
            s_endpoint := object_url (o_url opts) obj (o_endpoint opts);
            s_parameters := d |} = Ok data.
Proof.
  unfold process.
  destruct (parameters !! o_endpoint opts) as [lp|];
    [|intros [= _ <-] H1 H2; contradiction].
  destruct (endpoints !! o_endpoint opts) as [pager|];
    [|intros [= _ <-] H1 H2; contradiction].
  intros H Hnow Hold.
  apply objects_new_files with (path := path) (data := data) in H;
    [|assumption|assumption].
  cbn [with_machine w_machine w_files] in H.
  rewrite prepare_parameters_sent in H. exact H.
Qed.

(** X12. Every object starts afresh.  The requests of a [process] call are
    those of its objects, in order, each to the object's own URL; whatever
    the pages of earlier objects did to the cursor, the limit and the
    credential queue, the first request for each object carries the
    prepared parameters (the endpoint's defaults, the query parameters, the
    limit option) and the first credential of the pool. *)
Theorem process_starts_each_object_fresh
    is_space server file_name serialize fuel opts endpoints parameters
    w st w' lp t0 others :
  parameters !! o_endpoint opts = Some lp ->
  one_of is_space [o_tokens opts; o_tokens_file opts] = t0 :: others ->
  process is_space server file_name serialize fuel opts endpoints parameters w
  = (st, w') ->
  exists runs : list (list (string * gmap string value)),
    sent (w_machine w') = sent (w_machine w) ++ concat runs
    /\ (length runs
        <= length (one_of is_space [o_objects opts; o_objects_file opts]))%nat
    /\ (st = Completed ->
        length runs
        = length (one_of is_space [o_objects opts; o_objects_file opts]))
    /\ forall i obj reqs,
         one_of is_space [o_objects opts; o_objects_file opts] !! i = Some obj ->
         runs !! i = Some reqs ->
         Forall (fun r => r.1 = object_url (o_url opts) obj (o_endpoint opts)) reqs
         /\ exists more,
              reqs
              = (object_url (o_url opts) obj (o_endpoint opts),
                 <["access_token" := VStr t0]>
                   (<["limit" := VInt (o_limit opts)]>
                      (update_pairs (read (w_machine w) lp)
                         (default [] (o_query_parameters opts)))))
                :: more.
Proof.
  intros Hlp Htok. unfold process. rewrite Hlp, Htok.
  destruct (endpoints !! o_endpoint opts) as [pager|].
  - intros H.
    eapply objects_fresh with (tok0 := VStr t0) (rest := map VStr others) in H.
    + destruct H as (runs & Hs & Hlen & Hdone & _ & Hruns).
      cbn [with_machine w_machine] in Hs, Hruns.
      rewrite prepare_parameters_sent in Hs.
      rewrite prepare_parameters_read in Hruns.
      exists runs. repeat (split; [assumption|]). exact Hruns.
    + reflexivity.
    + cbn [with_machine w_machine]. unfold prepare_parameters, write. simpl.
      rewrite lookup_insert_eq. eauto.
  - intros [= <- <-]. exists [].
    split; [symmetry; apply app_nil_r|]. split; [simpl; lia|].
    split; [discriminate|]. intros i obj reqs _ H. discriminate H.
Qed.

(** ** Witnesses for the driver *)

Lemma ill_shaped_body_raises_witness :
  exists e g' m',
    request list_server likes_url 0%nat [token_A] caller_machine
    = Yielded e g' m'
    /\ e_content e = VList []
    /\ next_cursors list_server likes_url default_ramp g' m'
       = Raised AttributeError m'
    /\ next_dates list_server likes_url default_ramp g' m'
       = Raised AttributeError m'.
Proof.
  apply (ill_shaped_body_raises list_server likes_url default_ramp
           0%nat token_A [] caller_machine (VList [])).
  - reflexivity.
  - left. reflexivity.
Defined.


(** Two objects, the first with two pages: the request for the second
    object again carries credential A, limit 25 and no cursor. *)
Lemma process_starts_each_object_fresh_witness :
  exists runs : list (list (string * gmap string value)),
    sent (w_machine (likes_process 5).2) = concat runs
    /\ length runs = 2%nat
    /\ forall reqs,
         runs !! 1%nat = Some reqs ->
         exists more,
           reqs
           = ("https://graph.facebook.com/v2.2/7/likes",
              <["access_token" := VStr "A"]>
                (<["limit" := VInt 25]>
                   (<["fields" := VStr "name"]> likes_parameters)))
             :: more.
Proof.
  destruct (process_starts_each_object_fresh Ascii.is_space two_page_server
              tally_name token_and_cursor 5 likes_options default_endpoints
              likes_table likes_world (likes_process 5).1 (likes_process 5).2
              0%nat "A" ["B"] eq_refl eq_refl eq_refl)
    as (runs & Hsent & _ & Hlen & Hruns).
  exists runs. split; [exact Hsent|]. split; [apply Hlen; reflexivity|].
  intros reqs Hr.
  destruct (Hruns 1%nat "7" reqs eq_refl Hr) as (_ & more & ->).
  exists more. reflexivity.
Defined.

Lemma process_keeps_existing_files_witness :
  w_files (likes_process 5).2 !! "old" = Some "keep".
Proof.
  exact (process_keeps_existing_files Ascii.is_space two_page_server
           tally_name token_and_cursor 5 likes_options default_endpoints
           likes_table likes_world (likes_process 5).1 (likes_process 5).2
           "old" "keep" eq_refl eq_refl eq_refl).
Defined.

(** The file of the second page holds credential B and cursor C1, the
    parameters of the second request. *)
Lemma process_files_are_pages_witness :
  exists obj k hist d later,
    tally_name obj k = Ok "likes-40796308305-II"
    /\ sent (w_machine (likes_process 5).2)
       = hist ++ (object_url "https://graph.facebook.com/v2.2/" obj "likes", d)
              :: later
    /\ token_and_cursor
         {| s_content :=
              parse_response
                (two_page_server hist
                   (object_url "https://graph.facebook.com/v2.2/" obj "likes") d);
            s_status :=
              status_code
                (two_page_server hist
                   (object_url "https://graph.facebook.com/v2.2/" obj "likes") d);
            s_endpoint := object_url "https://graph.facebook.com/v2.2/" obj "likes";
            s_parameters := d |} = Ok "B/C1".
Proof.
  destruct (process_files_are_pages Ascii.is_space two_page_server
              tally_name token_and_cursor 5 likes_options default_endpoints
              likes_table likes_world (likes_process 5).1 (likes_process 5).2
              "likes-40796308305-II" "B/C1" eq_refl)
    as (obj & k & hist & d & later & _ & Hk & _ & Hs & Hd).
  - vm_compute. reflexivity.
  - vm_compute. discriminate.
  - exists obj, k, hist, d, later. split; [exact Hk|].
    split; [exact Hs|exact Hd].
Defined.

(** X16. The check for an existing file comes after the page has been
    fetched.  Without the overwrite option, when the file for the first page
    of the first object is already there, [process] sends that page's
    request, writes nothing and stops on the failed assertion. *)
Theorem process_stops_at_existing_file
    is_space server file_name serialize fuel opts endpoints parameters
    w lp pager obj objs t0 others path old :
  o_overwrite opts = false ->
  parameters !! o_endpoint opts = Some lp ->
  endpoints !! o_endpoint opts = Some pager ->
  one_of is_space [o_objects opts; o_objects_file opts] = obj :: objs ->
  one_of is_space [o_tokens opts; o_tokens_file opts] = t0 :: others ->
  file_name obj 1%nat = Ok path ->
  (forall p, exists text, serialize p = Ok text) ->
  w_files w !! path = Some old ->
  exists w',
    process is_space server file_name serialize (S fuel) opts endpoints
            parameters w = (Failed AssertionError, w')
    /\ w_files w' = w_files w
    /\ exists d,
         sent (w_machine w')
         = sent (w_machine w)
           ++ [(object_url (o_url opts) obj (o_endpoint opts), d)].
Proof.
  intros Hov Hlp Hpager Hobjs Htoks Hname Hser Hold.
  unfold process. rewrite Hlp, Hpager, Hobjs, Htoks, Hov.
  cbn [process_objects process_pages map paginate gen_next copy_dict].
  rewrite request_cons. cbv zeta.
  rewrite Hname.
  match goal with
  | |- context [serialize ?p] => destruct (Hser p) as [text ->]
  end.
  cbn [with_machine w_files w_machine].
  unfold write_file. rewrite Hold.
  rewrite (bool_decide_eq_true_2 (is_Some (Some old))) by eauto.
  cbn [orb negb].
  eexists. split; [reflexivity|].
  cbn [with_machine w_files w_machine sent].
  split; [reflexivity|].
  assert (Hs : forall m l x, sent (write m l x) = sent m) by reflexivity.
  rewrite Hs, prepare_parameters_sent. eexists. reflexivity.
Qed.

Lemma process_stops_at_existing_file_witness :
  exists w',
    process Ascii.is_space two_page_server tally_name token_and_cursor 3
            likes_options default_endpoints likes_table taken_world
    = (Failed AssertionError, w')
    /\ w_files w' = w_files taken_world
    /\ exists d,
         sent (w_machine w')
         = [("https://graph.facebook.com/v2.2/40796308305/likes", d)].
Proof.
  destruct (process_stops_at_existing_file Ascii.is_space two_page_server
              tally_name token_and_cursor 2 likes_options default_endpoints
              likes_table taken_world
              0%nat paginate_cursors "40796308305" ["7"] "A" ["B"]
              "likes-40796308305-I" "before"
              eq_refl eq_refl eq_refl eq_refl eq_refl eq_refl
              (fun p => ex_intro _ _ eq_refl) eq_refl)
    as (w' & Hrun & Hfiles & d & Hsent).
  exists w'. split; [exact Hrun|]. split; [exact Hfiles|].
  exists d. exact Hsent.
Defined.
